(** * rst-formatting-scripts: unit inference for the periphery rule table
      and the subscript-to-math markup rewriter

    A shallow embedding of [periphery-append-units-to-csv.py] and
    [subscript-to-math.py].  A Python [str] is a sequence of Unicode code
    points; it is modelled as a list of code points so that indexing and
    slicing ([u[1:]], [desc_search[:2]], [line[i]]) count code points the way
    the interpreter does. *)

From Stdlib Require Import String Ascii NArith List.
From stdpp Require Import list gmap.

Abbreviation pystr := (list N).

(** ** The string primitives of the interpreter used by the two scripts *)
Module Py.

(** A literal of the source whose characters are all ASCII. *)
Definition str (s : string) : pystr :=
  map N_of_ascii (list_ascii_of_string s).

Definition NL : N := 10.   (* the newline *)
Definition DQ : N := 34.   (* the double quote *)
Definition BQ : N := 96.   (* the backtick *)

(** [s.startswith(p)] *)
Fixpoint startswith (p s : pystr) : bool :=
  match p, s with
  | [], _ => true
  | _ :: _, [] => false
  | a :: p', b :: s' => (a =? b)%N && startswith p' s'
  end.

(** [s.endswith(p)] *)
Definition endswith (p s : pystr) : bool :=
  startswith (rev p) (rev s).

(** [s[a:b]] for [0 <= a], [0 <= b]; an empty slice when [b <= a]. *)
Definition slice (a b : nat) (s : pystr) : pystr :=
  take (b - a) (drop a s).

(** The scan of [str.replace] for a non-empty [old]: occurrences are taken
    left to right and do not overlap; [skip] counts the characters of the
    occurrence just replaced that are still to be passed over. *)
Fixpoint replace_from (old new s : pystr) (skip : nat) : pystr :=
  match s with
  | [] => []
  | c :: s' =>
      match skip with
      | S k => replace_from old new s' k
      | O => if startswith old s
             then new ++ replace_from old new s' (length old - 1)
             else c :: replace_from old new s' 0
      end
  end.

(** [s.replace(old, new)].  For an empty [old] the interpreter inserts [new]
    before every character and at the end. *)
Definition replace (old new s : pystr) : pystr :=
  match old with
  | [] => new ++ concat (map (fun c => c :: new) s)
  | _ :: _ => replace_from old new s 0
  end.

(** [s.find(sub, start)]: the lowest index [i >= start] at which [sub]
    occurs; [None] stands for the result [-1]. *)
Fixpoint find_from (sub s : pystr) (i start : nat) : option nat :=
  match s with
  | [] => if (start <=? i) && startswith sub [] then Some i else None
  | _ :: s' =>
      if (start <=? i) && startswith sub s then Some i
      else find_from sub s' (S i) start
  end.

Definition find (sub s : pystr) (start : nat) : option nat :=
  find_from sub s 0 start.

(** [sub in s] for strings. *)
Definition contains (sub s : pystr) : bool :=
  match find sub s 0 with Some _ => true | None => false end.

(** [sep.join(l)] *)
Fixpoint join (sep : pystr) (l : list pystr) : pystr :=
  match l with
  | [] => []
  | [x] => x
  | x :: l' => x ++ sep ++ join sep l'
  end.

(** [re.split] with a pattern that is an alternation of single characters:
    the pieces between the delimiters, empty pieces included. *)
Fixpoint re_split (is_delim : N -> bool) (s : pystr) : list pystr :=
  match s with
  | [] => [[]]
  | c :: s' =>
      if is_delim c then [] :: re_split is_delim s'
      else match re_split is_delim s' with
           | t :: ts => (c :: t) :: ts
           | [] => [[c]]
           end
  end.

(** [s.partition(sep)[0]] for a one-character separator. *)
Fixpoint partition_head (sep : N) (s : pystr) : pystr :=
  match s with
  | [] => []
  | c :: s' => if (c =? sep)%N then [] else c :: partition_head sep s'
  end.

(** [x in l] for a list of strings. *)
Definition In_list (x : pystr) (l : list pystr) : bool :=
  bool_decide (x ∈ l).

(** [list(dict.fromkeys(l))]: the keys in the order of their first
    occurrence. *)
Fixpoint fromkeys_from (seen l : list pystr) : list pystr :=
  match l with
  | [] => []
  | x :: l' =>
      if In_list x seen then fromkeys_from seen l'
      else x :: fromkeys_from (x :: seen) l'
  end.

Definition fromkeys (l : list pystr) : list pystr := fromkeys_from [] l.

(** Deduplication that preserves the order of the first occurrences, the
    way the specification words it: an element stays where it first occurs
    and its later occurrences are dropped. *)
Fixpoint first_occurrences (l : list pystr) : list pystr :=
  match l with
  | [] => []
  | x :: l' => x :: filter (fun y => y <> x) (first_occurrences l')
  end.

Definition is_ascii (c : N) : bool := (c <? 128)%N.

Definition ascii_lower (c : N) : N :=
  if (65 <=? c)%N && (c <=? 90)%N then (c + 32)%N else c.

(** [s.lower()].  On a string of ASCII characters it maps [A-Z] to [a-z];
    the lowercasing of a string with other code points is the
    interpreter's Unicode table, [unicode_lower], which the scripts do not
    contain. *)
Definition lower (unicode_lower : pystr -> pystr) (s : pystr) : pystr :=
  if forallb is_ascii s then map ascii_lower s else unicode_lower s.

(** [c.isspace()], also the class [\s] of a [str] pattern. *)
Definition isspace (c : N) : bool :=
  ((9 <=? c) && (c <=? 13) || (28 <=? c) && (c <=? 32) || (c =? 133)
   || (c =? 160) || (c =? 5760) || (8192 <=? c) && (c <=? 8202)
   || (c =? 8232) || (c =? 8233) || (c =? 8239) || (c =? 8287)
   || (c =? 12288))%N.

Fixpoint lstrip (s : pystr) : pystr :=
  match s with
  | c :: s' => if isspace c then lstrip s' else s
  | [] => []
  end.

(** [s.strip()] *)
Definition strip (s : pystr) : pystr := rev (lstrip (rev (lstrip s))).

End Py.

(** ** periphery-append-units-to-csv.py *)
Module Periphery.
Import Py.

Definition mu : pystr := [181%N].   (* 'µ' *)
Definition sq : pystr := [178%N].   (* '²' *)
Definition um : pystr := mu ++ str "m".
Definition um2 : pystr := mu ++ str "m" ++ sq.

(** A dict literal, in insertion order (the order of iteration). *)
Definition dict (V : Type) := list (pystr * V).

Fixpoint dict_get {V} (d : dict V) (k : pystr) : option V :=
  match d with
  | [] => None
  | (k', v) :: d' => if bool_decide (k' = k) then Some v else dict_get d' k
  end.

Definition no_unit_values : dict pystr :=
  [ (str "N/A", str "N/A");
    (str "", str "") ].

Definition desc_picks : dict (list pystr) :=
  [ (str "deg", [str "degrees"; str "deg"; str "[deg]"; str "(deg)"]);
    (str "mm", [str "mm"; str "[mm]"; str "(mm)"]);
    (str "mm" ++ sq,
       [str "mm2"; str "[mm2]"; str "(mm2)"; str "mm^2"; str "[mm^2]";
        str "(mm^2)"; str "mmsq"]);
    (mu ++ str "m", [str "um"; str "[um]"; str "(um)"]);
    (mu ++ str "m" ++ sq,
       [str "um2"; str "[um2]"; str "(um2)"; str "um^2"; str "[um^2]";
        str "(um^2)"; str "umsq"]);
    (str "nm", [str "nm"; str "[nm]"; str "(nm)"]) ].

Definition guess_keywords : dict (list pystr) :=
  [ (str "deg", [str "angle"; str "angles"]);
    (mu ++ str "m",
       [str "length"; str "width"; str "space"; str "spacing";
        str "distance"; str "enclosure"; str "enclosed"; str "step";
        str "l"; str "w"; str "differ"; str "size"; str "within"]);
    (mu ++ str "m" ++ sq, [str "area"]);
    (str "\-", [str "density"]) ].

Definition allow_guessing : bool := true.
Definition strong_guess_limit : nat := 2.

(** The delimiters of the pattern of [re.split] on source line 93: space,
    underscore, comma, period, colon, newline, pipe and double quote. *)
Definition is_delim (c : N) : bool :=
  In_list [c] [str " "; str "_"; str ","; str "."; str ":"; [NL]; str "|"; [DQ]].

(** [for u in d: for x in d[u]: st = body u x st] *)
Definition for_each {V S} (d : dict (list V)) (body : pystr -> V -> S -> S)
    (st : S) : S :=
  fold_left (fun st '(u, xs) => fold_left (fun st x => body u x st) xs st) d st.

(** The body of the alias loop (source lines 96-101); the state is
    [(unit, rdesc)]. *)
Definition alias_body (desc_search : list pystr) (u alias : pystr)
    (st : list pystr * pystr) : list pystr * pystr :=
  let '(unit, rdesc) := st in
  if In_list alias desc_search then
    (unit ++ [u],
     if bool_decide (last desc_search = Some alias)
     then replace alias [] rdesc
     else replace alias u rdesc)
  else st.

(** The body of the keyword loop (source lines 108-112). *)
Definition guess_body (desc_search : list pystr) (u k : pystr)
    (unit : list pystr) : list pystr :=
  let unit :=
    if In_list k (take strong_guess_limit desc_search)
       && negb (In_list (drop 1 u) (map (drop 1) unit))
    then [u] else unit in
  if (length unit =? 0) && In_list k desc_search then [u] else unit.

(** The keyword [p.2] of the unit [p.1] fires as a strong guess against the
    candidates [unit]: the condition of line 108. *)
Definition strong_guess (toks unit : list pystr) (p : pystr * pystr) : Prop :=
  p.2 ∈ take strong_guess_limit toks /\ drop 1 p.1 ∉ map (drop 1) unit.

(** A candidate list as the guess branches assign it: empty, or one label
    that is a key of the keyword catalog. *)
Definition guessed (unit : list pystr) : Prop :=
  unit = [] \/ exists u, u ∈ map fst guess_keywords /\ unit = [u].

(** The pairs [(u, x)] that the nested loops over a dict visit, in order. *)
Definition entries {V} (d : dict (list V)) : list (pystr * V) :=
  concat (map (fun '(u, xs) => map (pair u) xs) d).

Definition aliases : list pystr := map snd (entries desc_picks).
Definition keywords : list pystr := map snd (entries guess_keywords).

(** The labels of the two catalogs. *)
Definition labels : list pystr := map fst desc_picks ++ map fst guess_keywords.

(** [desc_search] of line 93. *)
Definition tokens (rdesc : pystr) : list pystr := re_split is_delim rdesc.

Section PickUnits.
Variable unicode_lower : pystr -> pystr.

(** [desc_search] of line 104. *)
Definition lowered_tokens (rdesc : pystr) : list pystr :=
  map (lower unicode_lower) (tokens rdesc).

(** The candidate list and the filtered description after the alias loop. *)
Definition alias_scan (rdesc : pystr) : list pystr * pystr :=
  for_each desc_picks (alias_body (re_split is_delim rdesc)) ([], rdesc).

(** The candidate list after the keyword loop. *)
Definition guess (desc_search unit : list pystr) : list pystr :=
  if allow_guessing then
    let desc_search := map (lower unicode_lower) desc_search in
    for_each guess_keywords (guess_body desc_search) unit
  else unit.

(** The candidate list just before line 114. *)
Definition candidates (rdesc : pystr) : list pystr :=
  guess (re_split is_delim rdesc) (fst (alias_scan rdesc)).

Definition pick_units (rdesc rvalue : pystr) : pystr * pystr :=
  match dict_get no_unit_values rvalue with
  | Some v => (v, rdesc)
  | None =>
      let desc_search := re_split is_delim rdesc in
      let '(unit, rdesc) := alias_scan rdesc in
      let unit := guess desc_search unit in
      (join (str " ") (fromkeys unit), rdesc)
  end.

End PickUnits.

(** *** The comma-list parser

    [pp.commaSeparatedList.parseString] belongs to the third-party package
    pyparsing, which the repository only imports.  The rewriter is embedded
    over an arbitrary parser [parseString]; [None] stands for a raised
    [ParseException]. *)

Inductive exn : Type :=
  | ParseException
  | IndexError
  | FileNotFoundError.

Inductive result (A : Type) : Type :=
  | Ok (a : A)
  | Raise (e : exn).
Arguments Ok {A} a.
Arguments Raise {A} e.

Definition ellipsis : pystr := [8230%N].      (* the character U+2026 *)
Definition escaped_ellipsis : pystr := str "\...".

Definition DescColumnNo : nat := 1.
Definition ValColumnNo : nat := 3.
Definition UnitColumnNo : nat := 4.

Section Rewriter.
Variable unicode_lower : pystr -> pystr.
Variable parseString : pystr -> option (list pystr).

(** Source lines 141-145: the fields of a line that is not passed through
    by the test of line 138. *)
Definition parse_fields (l : pystr) : result (list pystr) :=
  let lcopy := replace ellipsis escaped_ellipsis l in
  match parseString lcopy with
  | None => Raise ParseException
  | Some [] => Raise IndexError
  | Some (f0 :: fs) =>
      let f0 := if bool_decide (f0 = []) then partition_head 44 l else f0 in
      Ok (map (replace escaped_ellipsis ellipsis) (f0 :: fs))
  end.

(** The test of lines 146-148. *)
Definition rejected (fields : list pystr) : bool :=
  negb (length fields =? UnitColumnNo)
  || endswith (str "Errors") (default [] (fields !! 0))
  || In_list (default [] (fields !! 0)) [str ""; [NL]; str "Rule"].

(** Source lines 151-156, for a list of [UnitColumnNo] fields. *)
Definition append_unit (fields : list pystr) : pystr :=
  let desc := default [] (fields !! DescColumnNo) in
  let val := default [] (fields !! ValColumnNo) in
  let '(unit, d) := pick_units unicode_lower desc val in
  let fields := <[DescColumnNo := d]> fields in
  let fields := fields ++ [unit] in
  join (str ",") fields ++ [NL].

(** The body of the loop over the lines (source lines 138-156): what is
    written to the output file for the line [l]. *)
Definition rewrite_line (l : pystr) : result pystr :=
  if contains (str ".-)") l || startswith (str "Note:") l then Ok l
  else
    match parse_fields l with
    | Raise e => Raise e
    | Ok fields => if rejected fields then Ok l else Ok (append_unit fields)
    end.

(** The loop over the lines: the text written so far, and the exception
    that ended the loop, if any. *)
Fixpoint rewrite_lines (ls : list pystr) (written : pystr)
    : pystr * option exn :=
  match ls with
  | [] => (written, None)
  | l :: ls' =>
      match rewrite_line l with
      | Ok out => rewrite_lines ls' (written ++ out)
      | Raise e => (written, Some e)
      end
  end.

(** *** The pass over the file

    The file system maps a path to the text of the file (the files are read
    and written as utf8 text). *)

(** Reading in text mode with the default [newline=None]: the line ends
    [\r\n] and [\r] are read as [\n]. *)
Fixpoint universal_newlines (s : pystr) : pystr :=
  match s with
  | [] => []
  | c :: s' =>
      if (c =? 13)%N then
        NL :: match s' with
              | c2 :: s'' =>
                  if (c2 =? NL)%N then universal_newlines s''
                  else universal_newlines s'
              | [] => []
              end
      else c :: universal_newlines s'
  end.

(** Iterating over a text file: the lines, each with its newline. *)
Fixpoint file_lines (s : pystr) : list pystr :=
  match s with
  | [] => []
  | c :: s' =>
      if (c =? NL)%N then [c] :: file_lines s'
      else match file_lines s' with
           | l :: ls => (c :: l) :: ls
           | [] => [[c]]
           end
  end.

(** [shutil.move(src, dst)] between two file paths. *)
Definition shutil_move (src dst : pystr) (fs : gmap pystr pystr)
    : gmap pystr pystr :=
  match fs !! src with
  | Some text => <[dst := text]> (delete src fs)
  | None => fs
  end.

(** [append_units_to_periphery_csv(infile)]: the file system after the
    call, and the exception that left it, if any. *)
Definition append_units_to_periphery_csv (infile : pystr)
    (fs : gmap pystr pystr) : gmap pystr pystr * option exn :=
  let outfile := infile ++ str ".tmp" in
  let fs := <[outfile := []]> fs in                   (* open(outfile,'w') *)
  match fs !! infile with                            (* open(infile) *)
  | None => (fs, Some FileNotFoundError)
  | Some text =>
      let '(written, e) :=
        rewrite_lines (file_lines (universal_newlines text)) [] in
      let fs := <[outfile := written]> fs in
      match e with
      | Some e => (fs, Some e)
      | None => (shutil_move outfile infile fs, None)
      end
  end.

End Rewriter.

End Periphery.

(** ** The grammar of the comma-list parser *)
Module Pyparsing.
Import Py.

(** Modelled from the spec: the comma-list parser of section 4.2 and 6 is
    [commaSeparatedList] of the package pyparsing, which is not part of the
    repository.  The model follows the grammar of that package:
    [delimitedList(Optional(quotedString | commaItem, default=empty))], a
    field being a quoted string (kept with its quotes, commas inside it do
    not separate), or a run of printable ASCII words joined by blanks, or
    empty; white space is skipped before a field and before a comma, tabs
    are expanded first, and the parse ends without an error where no comma
    follows a field. *)
Definition is_white (c : N) : bool :=
  ((c =? 32) || (c =? 10) || (c =? 9) || (c =? 13))%N.

Definition is_blank (c : N) : bool := ((c =? 32) || (c =? 9))%N.

Definition printable (c : N) : bool := ((33 <=? c) && (c <=? 126))%N.

Definition is_hex (c : N) : bool :=
  ((48 <=? c) && (c <=? 57) || (65 <=? c) && (c <=? 70)
   || (97 <=? c) && (c <=? 102))%N.

Fixpoint span (p : N -> bool) (s : pystr) : pystr * pystr :=
  match s with
  | c :: s' => if p c then let '(a, b) := span p s' in (c :: a, b) else ([], s)
  | [] => ([], [])
  end.

(** [s.expandtabs()], tab stops every 8 columns. *)
Fixpoint expandtabs_from (col : nat) (s : pystr) : pystr :=
  match s with
  | [] => []
  | c :: s' =>
      if (c =? 9)%N then
        let n := 8 - col mod 8 in
        List.repeat 32%N n ++ expandtabs_from (col + n) s'
      else if ((c =? 10) || (c =? 13))%N then c :: expandtabs_from 0 s'
      else c :: expandtabs_from (S col) s'
  end.

(** The inside of a string quoted with [q]: ordinary characters, a doubled
    quote, or a backslash escape; the body and what follows it. *)
Fixpoint quoted_body (q : N) (s : pystr) : pystr * pystr :=
  match s with
  | [] => ([], [])
  | c :: s' =>
      if (c =? q)%N then
        match s' with
        | c2 :: s'' =>
            if (c2 =? q)%N
            then let '(b, r) := quoted_body q s'' in (c :: c2 :: b, r)
            else ([], s)
        | [] => ([], s)
        end
      else if (c =? 92)%N then
        match s' with
        | c2 :: s'' =>
            if (c2 =? 120)%N then
              match s'' with
              | h :: s3 =>
                  if is_hex h
                  then let '(b, r) := quoted_body q s3 in (c :: c2 :: h :: b, r)
                  else ([], s)
              | [] => ([], s)
              end
            else let '(b, r) := quoted_body q s'' in (c :: c2 :: b, r)
        | [] => ([], s)
        end
      else if ((c =? 10) || (c =? 13))%N then ([], s)
      else let '(b, r) := quoted_body q s' in (c :: b, r)
  end.

Definition quotedString (s : pystr) : option (pystr * pystr) :=
  match s with
  | q :: s' =>
      if ((q =? 34) || (q =? 39))%N then
        let '(b, r) := quoted_body q s' in
        match r with
        | c :: r' => if (c =? q)%N then Some (q :: b ++ [q], r') else None
        | [] => None
        end
      else None
  | [] => None
  end.

(** One or more words of printable characters other than the comma, each
    followed by blanks when these are not followed by a comma or the end of
    the line. *)
Fixpoint commaItem (fuel : nat) (s : pystr) : option (pystr * pystr) :=
  match fuel with
  | O => None
  | S fuel' =>
      let '(w, r) := span (fun c => printable c && negb (c =? 44)%N) s in
      match w with
      | [] => None
      | _ :: _ =>
          let '(b, r2) := span is_blank r in
          let ends := match r2 with
                      | c :: _ => ((c =? 44) || (c =? 10))%N
                      | [] => true
                      end in
          let '(wb, r3) :=
            match b with
            | [] => (w, r)
            | _ :: _ => if ends then (w, r) else (w ++ b, r2)
            end in
          match commaItem fuel' r3 with
          | Some (more, r4) => Some (wb ++ more, r4)
          | None => Some (wb, r3)
          end
      end
  end.

Definition field (s : pystr) : pystr * pystr :=
  let s1 := snd (span is_white s) in
  match quotedString s1 with
  | Some fr => fr
  | None =>
      match commaItem (length s1) s1 with
      | Some fr => fr
      | None => ([], s)
      end
  end.

Fixpoint more_fields (fuel : nat) (s : pystr) : list pystr :=
  match fuel with
  | O => []
  | S fuel' =>
      match snd (span is_white s) with
      | c :: s' =>
          if (c =? 44)%N
          then let '(f, r) := field s' in f :: more_fields fuel' r
          else []
      | [] => []
      end
  end.

Definition commaSeparatedList (s : pystr) : option (list pystr) :=
  let s := expandtabs_from 0 s in
  let '(f, r) := field s in
  Some (f :: more_fields (length s) r).

End Pyparsing.

(** ** Sample tables *)
Module Samples.
Import Py.

(** A parser that raises on one line and follows the grammar on the other
    lines: a forced failure in the middle of a pass. *)
Definition forced_failure (l : pystr) : option (list pystr) :=
  if bool_decide (l = str "bad line" ++ [NL]) then None
  else Pyparsing.commaSeparatedList l.

Definition table : pystr :=
  str "RULE1,Minimum width,x,0.5" ++ [NL] ++ str "bad line" ++ [NL]
  ++ str "RULE2,Maximum angle,x,45" ++ [NL].

Definition disk : gmap pystr pystr := {[ str "periphery.csv" := table ]}.

(** A row with a stray double quote, written [Q] here:
    [id,[mm]Qb [mm],cQ,val]. *)
Definition merging_line : pystr :=
  str "id,[mm]" ++ [DQ] ++ str "b [mm],c" ++ [DQ] ++ str ",val" ++ [NL].

End Samples.

(** ** subscript-to-math.py *)
Module SubscriptToMath.
Import Py.

(** *** The patterns

    The constructs of the regular expressions the script uses: literals,
    character classes, the greedy [?], [*] and [+] and the lazy [+?].  The
    repeated item is always one character. *)
Inductive regex : Type :=
  | Lit (s : pystr)              (* the characters of [s] *)
  | Class (p : N -> bool)        (* one character of a class *)
  | Seq (r1 r2 : regex)
  | Opt (r : regex)              (* [r?] *)
  | Star (p : N -> bool)         (* [c*] *)
  | Plus (p : N -> bool)         (* [c+] *)
  | LazyPlus (p : N -> bool).    (* [c+?] *)

Section Matcher.
Context {A : Type}.

(** [c*] then [k]: the longest run first, then shorter ones. *)
Fixpoint star (p : N -> bool) (s : pystr) (k : pystr -> option A)
    : option A :=
  match s with
  | c :: s' =>
      if p c then
        match star p s' k with
        | Some r => Some r
        | None => k s
        end
      else k s
  | [] => k s
  end.

(** [c+?] then [k]: the shortest run first. *)
Fixpoint lazy_plus (p : N -> bool) (s : pystr) (k : pystr -> option A)
    : option A :=
  match s with
  | c :: s' =>
      if p c then
        match k s' with
        | Some r => Some r
        | None => lazy_plus p s' k
        end
      else None
  | [] => None
  end.

(** The backtracking matcher: [rmatch r s k] matches [r] at the start of
    [s] and hands the rest of the input to [k]; the first success in the
    order of the engine is the result. *)
Fixpoint rmatch (r : regex) (s : pystr) (k : pystr -> option A) : option A :=
  match r with
  | Lit l => if startswith l s then k (drop (length l) s) else None
  | Class p =>
      match s with
      | c :: s' => if p c then k s' else None
      | [] => None
      end
  | Seq r1 r2 => rmatch r1 s (fun s' => rmatch r2 s' k)
  | Opt r1 =>
      match rmatch r1 s k with
      | Some x => Some x
      | None => k s
      end
  | Star p => star p s k
  | Plus p =>
      match s with
      | c :: s' => if p c then star p s' k else None
      | [] => None
      end
  | LazyPlus p => lazy_plus p s k
  end.

End Matcher.

(** [re.match(r, s).group(0)] *)
Definition re_match (r : regex) (s : pystr) : option pystr :=
  match rmatch r s Some with
  | Some rest => Some (take (length s - length rest) s)
  | None => None
  end.

(** [re.search(r, s).group(0)]: the match at the leftmost position that has
    one. *)
Fixpoint re_search (r : regex) (s : pystr) : option pystr :=
  match re_match r s with
  | Some g => Some g
  | None =>
      match s with
      | _ :: s' => re_search r s'
      | [] => None
      end
  end.

(** [re.sub(r, repl, s)] for a pattern that does not match the empty
    string: the matches are replaced from left to right; [skip] counts the
    characters of the last match still to be passed over. *)
Fixpoint re_sub_from (r : regex) (repl : pystr -> pystr) (s : pystr)
    (skip : nat) : pystr :=
  match s with
  | [] => []
  | c :: s' =>
      match skip with
      | S n => re_sub_from r repl s' n
      | O =>
          match re_match r s with
          | Some (g0 :: g) =>
              repl (g0 :: g) ++ re_sub_from r repl s' (length g)
          | _ => c :: re_sub_from r repl s' 0
          end
      end
  end.

Definition re_sub (r : regex) (repl : pystr -> pystr) (s : pystr) : pystr :=
  re_sub_from r repl s 0.

Definition seq (rs : list regex) : regex :=
  fold_right Seq (Lit []) rs.

(** [[...]]: one of the characters of [s]. *)
Definition one_of (s : pystr) : N -> bool := fun c => bool_decide (c ∈ s).

Definition none_of (s : pystr) : N -> bool := fun c => negb (one_of s c).

(** [.]: any character but the newline. *)
Definition dot : N -> bool := none_of [NL].

Definition ascii_alnum (c : N) : bool :=
  ((48 <=? c) && (c <=? 57) || (65 <=? c) && (c <=? 90)
   || (97 <=? c) && (c <=? 122))%N.

Section Patterns.
(** The alphanumeric characters beyond ASCII are those of the interpreter's
    Unicode table. *)
Variable unicode_isalnum : N -> bool.

(** [\w] *)
Definition word_char (c : N) : bool :=
  if is_ascii c then ascii_alnum c || (c =? 95)%N else unicode_isalnum c.

Definition digit : N -> bool := fun c => ((48 <=? c) && (c <=? 57))%N.

Definition bslash_space : regex := Lit (str "\ ").
Definition bslash_pipe : regex := Lit (str "\|").

(** Source lines 78-87. *)
Definition sub : regex :=
  seq [Plus word_char; Opt bslash_space; Lit (str ":sub:`");
       LazyPlus dot; Lit [BQ]].

Definition math : regex :=
  seq [Lit (str ":math:`"); Star (none_of [BQ]); Lit [BQ]; Opt bslash_space].

Definition unit : regex :=
  seq [Opt (Class (one_of (str "f|p|n|" ++ [181%N] ++ str "|u|m|k")));
       Class (one_of (str "m|V|A|" ++ [8486%N] ++ str "|F|H"));
       Opt (Class (one_of [178%N]))].

Definition value : regex :=
  seq [Opt (Class (one_of (str "+-"))); Star digit;
       Opt (Class (one_of (str "."))); Star digit;
       Opt (seq [Opt (Class isspace); unit])].

Inductive template : Type :=
  | div_sub | diff_sub | eq_sub | bracedmath1 | bracedmath2.

Definition pattern (t : template) : regex :=
  match t with
  | bracedmath1 =>
      seq [Opt bslash_pipe; math; Opt bslash_space; Opt bslash_pipe]
  | bracedmath2 =>
      seq [Opt (Class (one_of (str "("))); math; Opt bslash_space;
           Opt (Class (one_of (str ")")))]
  | div_sub =>
      seq [Opt bslash_pipe; math; Lit (str "/"); math; Opt bslash_space;
           Opt bslash_pipe]
  | diff_sub =>
      seq [Opt bslash_pipe; math; Opt (Class isspace);
           Plus (one_of (str "+" ++ [8211%N] ++ str "*")); Class isspace;
           math; Opt bslash_space; Opt bslash_pipe]
  | eq_sub =>
      seq [Opt bslash_pipe; math; Opt (Class isspace);
           Class (one_of (str "=|<|>")); Opt (Class isspace); value;
           Opt bslash_pipe]
  end.

Definition is_div_sub (t : template) : bool :=
  match t with div_sub => true | _ => false end.

(** [patch_sub], applied to [matchobj.group(0)]. *)
Definition patch_sub (group0 : pystr) : pystr :=
  let s := group0 in
  let s := replace (str "\ ") [] (replace [BQ] [] s) in
  match find (str ":sub:") s 0 with
  | None => s
  | Some i =>
      let head := take i s in
      let tail := drop (i + 5) s in
      let tail := if 1 <? length tail then str "{" ++ tail ++ str "}"
                  else tail in
      str ":math:`" ++ head ++ str "_" ++ tail ++ [BQ]
  end.

Definition math_tag : pystr := str ":math:`".

(** One iteration of the loop of [strip_math]: [inr] is a [return], [inl]
    the value of [s] for the next iteration. *)
Definition strip_math_step (s : pystr) : pystr + pystr :=
  match find math_tag s 0 with
  | None => inr s
  | Some start =>
      match find [BQ] s (start + length math_tag) with
      | None => inr s
      | Some stop =>
          inl (take start s ++ slice (start + length math_tag) stop s
               ++ drop (stop + 1) s)
      end
  end.

(** The loop [while True], run for at most [fuel] iterations. *)
Fixpoint strip_math_loop (fuel : nat) (s : pystr) : option pystr :=
  match fuel with
  | O => None
  | S fuel' =>
      match strip_math_step s with
      | inr r => Some r
      | inl s' => strip_math_loop fuel' s'
      end
  end.

(** [strip_math]; [length s + 1] iterations are more than the loop makes. *)
Definition strip_math (s : pystr) : pystr :=
  default s (strip_math_loop (S (length s)) s).

Inductive exn : Type := IndexError.

(** The body of the loop over the templates (source lines 98-123). *)
Definition apply_template (t : template) (line : pystr) : pystr + exn :=
  match re_search (pattern t) line with
  | None => inl line
  | Some group0 =>
      let patch := group0 in
      let br := (str "", str "") in
      let '(patch, br) :=
        if startswith (str "\|") patch && endswith (str "\|") patch
        then (slice 2 (length patch - 2) patch, (str "|", str "|"))
        else (patch, br) in
      let '(patch, br) :=
        if startswith (str "(") patch && endswith (str ")") patch
        then (slice 1 (length patch - 1) patch, (str "(", str ")"))
        else (patch, br) in
      let patch := replace (str "\ :sup:`2`") (str "^2") patch in
      let patch := strip (replace (str "\ ") (str "") patch) in
      let patch := strip (replace (str "to") (str " to ") patch) in
      let patch := strip_math patch in
      let patch :=
        if is_div_sub t
        then str ":math:`" ++ fst br ++ str "\frac{"
             ++ replace (str "/") (str "}{") patch ++ str "}" ++ snd br ++ [BQ]
        else str ":math:`" ++ fst br ++ patch ++ snd br ++ [BQ] in
      let i := default 0 (find group0 line 0) in
      let patch :=
        if (0 <? i) && negb (bool_decide (line !! (i - 1) = Some 32%N))
        then str "\ " ++ patch else patch in
      let i := i + length group0 in
      match line !! i with
      | None => inr IndexError
      | Some c =>
          let patch :=
            if negb (bool_decide (c ∈ [32%N; 92%N; NL]))
            then patch ++ str "\ " else patch in
          inl (replace group0 patch line)
      end
  end.

(** The body of the loop over the lines (source lines 95-125): the line
    written for [line]. *)
Definition patch_line (line : pystr) : pystr + exn :=
  let line := re_sub sub patch_sub line in
  fold_left
    (fun acc t => match acc with inl line => apply_template t line
                               | inr e => inr e end)
    [div_sub; diff_sub; eq_sub; bracedmath1; bracedmath2]
    (inl line).

End Patterns.

End SubscriptToMath.

(** *** The pass over a markup file, and the loop over the files *)
Module SubscriptFiles.
Import Py SubscriptToMath.

Section Files.
Variable unicode_isalnum : N -> bool.
(** [os.linesep]: the output file is opened in text mode with the default
    [newline], so every newline written is translated to it. *)
Variable linesep : pystr.

Definition write_text (s : pystr) : pystr := replace [NL] linesep s.

(** The loop over the lines of [patch_subscript] (source lines 94-125): the
    text written so far, and the exception that ended the loop, if any. *)
Fixpoint patch_lines (ls : list pystr) (written : pystr)
    : pystr * option Periphery.exn :=
  match ls with
  | [] => (written, None)
  | line :: ls' =>
      match patch_line unicode_isalnum line with
      | inl out => patch_lines ls' (written ++ write_text out)
      | inr IndexError => (written, Some Periphery.IndexError)
      end
  end.

(** [patch_subscript(infile)]: the file system after the call, and the
    exception that left it, if any. *)
Definition patch_subscript (infile : pystr) (fs : gmap pystr pystr)
    : gmap pystr pystr * option Periphery.exn :=
  let outfile := infile ++ str ".out" in
  let fs := <[outfile := []]> fs in                   (* outfile.open('w') *)
  match fs !! infile with                            (* infile.open('r') *)
  | None => (fs, Some Periphery.FileNotFoundError)
  | Some text =>
      let '(written, e) :=
        patch_lines
          (Periphery.file_lines (Periphery.universal_newlines text)) [] in
      let fs := <[outfile := written]> fs in
      match e with
      | Some e => (fs, Some e)
      | None => (Periphery.shutil_move outfile infile fs, None)
      end
  end.

(** The line printed for a file: [f'Patching {str(f)}']. *)
Definition message (f : pystr) : pystr := str "Patching " ++ f.

(** The loop of [main] over the resolved paths (source lines 139-141); the
    state is the file system and the lines printed so far. *)
Fixpoint main_loop (files : list pystr)
    (st : gmap pystr pystr * list pystr)
    : (gmap pystr pystr * list pystr) * option Periphery.exn :=
  match files with
  | [] => (st, None)
  | f :: files' =>
      let printed := st.2 ++ [message f] in
      match patch_subscript f st.1 with
      | (fs, Some e) => ((fs, printed), Some e)
      | (fs, None) => main_loop files' (fs, printed)
      end
  end.

End Files.

(** Three markup files. *)
Definition docs : gmap pystr pystr :=
  {[ str "a.rst" := str "V\ :sub:`dd`" ++ [NL];
     str "b.rst" := str "x";
     str "c.rst" := str "I\ :sub:`s`" ++ [NL] ]}.

(** A pattern can only match where the character [c] occurs: a literal of
    the pattern that is not optional contains it. *)
Fixpoint requires (c : N) (r : regex) : bool :=
  match r with
  | Lit l => bool_decide (c ∈ l)
  | Seq r1 r2 => requires c r1 || requires c r2
  | _ => false
  end.

End SubscriptFiles.

(** * Properties of the unit inference *)
Module PeripheryFacts.
Import Py Periphery.

Lemma fold_left_fmap {A B S} (f : S -> B -> S) (g : A -> B) l st :
  fold_left f (map g l) st = fold_left (fun st x => f st (g x)) l st.
Proof. revert st. induction l as [|x l IH]; intros st; simpl; auto. Qed.

(** The nested loops are one loop over the entries. *)
Lemma for_each_entries {V S} (d : dict (list V)) (body : pystr -> V -> S -> S) st :
  for_each d body st = fold_left (fun st p => body p.1 p.2 st) (entries d) st.
Proof.
  unfold for_each, entries. revert st.
  induction d as [|[u xs] d IH]; intros st; simpl; [done|].
  rewrite fold_left_app, fold_left_fmap. simpl. apply IH.
Qed.

Lemma In_list_true x l : In_list x l = true <-> x ∈ l.
Proof. unfold In_list. apply bool_decide_eq_true. Qed.

Lemma In_list_false x l : In_list x l = false <-> x ∉ l.
Proof. unfold In_list. apply bool_decide_eq_false. Qed.

Lemma in_take {A} (x : A) n (l : list A) : x ∈ take n l -> x ∈ l.
Proof.
  intros Hin. apply elem_of_take in Hin as (i & Hi & _).
  by eapply list_elem_of_lookup_2.
Qed.

Lemma not_in_take (x : pystr) n l : x ∉ l -> x ∉ take n l.
Proof. intros H Hin. apply H. by eapply in_take. Qed.

(** *** The alias loop *)

Lemma alias_body_no_match toks u a st :
  a ∉ toks -> alias_body toks u a st = st.
Proof.
  intros H. unfold alias_body. destruct st as [unit rdesc].
  apply In_list_false in H. by rewrite H.
Qed.

Lemma alias_fold_no_match toks (ps : list (pystr * pystr)) st :
  Forall (fun a => a ∉ toks) (map snd ps) ->
  fold_left (fun st p => alias_body toks p.1 p.2 st) ps st = st.
Proof.
  revert st. induction ps as [|[u a] ps IH]; intros st H; simpl; [done|].
  inversion H; subst. rewrite alias_body_no_match by done. by apply IH.
Qed.

Lemma alias_scan_no_match rdesc :
  Forall (fun a => a ∉ tokens rdesc) aliases -> alias_scan rdesc = ([], rdesc).
Proof.
  intros H. unfold alias_scan. rewrite for_each_entries.
  by apply alias_fold_no_match.
Qed.

(** *** The keyword loop *)

Lemma guess_body_no_match toks u k unit :
  k ∉ toks -> guess_body toks u k unit = unit.
Proof.
  intros H. unfold guess_body.
  assert (In_list k (take strong_guess_limit toks) = false) as ->
    by (apply In_list_false; by apply not_in_take).
  apply In_list_false in H. rewrite H. simpl. by rewrite andb_false_r.
Qed.

Lemma guess_fold_no_match toks (ps : list (pystr * pystr)) unit :
  Forall (fun k => k ∉ toks) (map snd ps) ->
  fold_left (fun st p => guess_body toks p.1 p.2 st) ps unit = unit.
Proof.
  revert unit. induction ps as [|[u k] ps IH]; intros unit H; simpl; [done|].
  inversion H; subst. rewrite guess_body_no_match by done. by apply IH.
Qed.

Lemma guess_body_first toks u k : k ∈ toks -> guess_body toks u k [] = [u].
Proof.
  intros H. unfold guess_body. apply In_list_true in H. rewrite H.
  by destruct (In_list k (take strong_guess_limit toks)).
Qed.

Lemma guess_body_keep toks u k unit :
  unit <> [] -> ~ strong_guess toks unit (u, k) ->
  guess_body toks u k unit = unit.
Proof.
  intros Hne Hs. unfold guess_body, strong_guess in *. simpl in Hs.
  destruct (In_list k (take strong_guess_limit toks)) eqn:E1; simpl.
  - destruct (In_list (drop 1 u) (map (drop 1) unit)) eqn:E2; simpl.
    + destruct unit; [done | reflexivity].
    + exfalso. apply Hs. split; [by apply In_list_true | by apply In_list_false].
  - destruct unit; [done | reflexivity].
Qed.

Lemma guess_fold_keep toks (ps : list (pystr * pystr)) unit :
  unit <> [] -> Forall (fun p => ~ strong_guess toks unit p) ps ->
  fold_left (fun st p => guess_body toks p.1 p.2 st) ps unit = unit.
Proof.
  intros Hne H. induction H as [|[u k] ps Hp _ IH]; simpl; [done|].
  by rewrite guess_body_keep.
Qed.

Lemma guess_body_guessed toks u k unit :
  u ∈ map fst guess_keywords -> guessed unit ->
  guessed (guess_body toks u k unit).
Proof.
  intros Hu Hg. unfold guess_body.
  destruct (_ && negb _); simpl.
  - destruct (In_list k toks); right; eauto.
  - destruct Hg as [->|(u' & Hu' & ->)]; simpl.
    + destruct (In_list k toks); [right; eauto | by left].
    + right; eauto.
Qed.

Lemma guess_fold_guessed toks (ps : list (pystr * pystr)) unit :
  Forall (fun u => u ∈ map fst guess_keywords) (map fst ps) ->
  guessed unit ->
  guessed (fold_left (fun st p => guess_body toks p.1 p.2 st) ps unit).
Proof.
  revert unit. induction ps as [|[u k] ps IH]; intros unit H Hg; simpl; [done|].
  inversion H; subst. apply IH; [done|]. by apply guess_body_guessed.
Qed.

Lemma entries_keys :
  Forall (fun u => u ∈ map fst guess_keywords) (map fst (entries guess_keywords)).
Proof. apply (bool_decide_unpack _). vm_compute. exact I. Qed.

Section Units.
Variable unicode_lower : pystr -> pystr.

Lemma guess_entries toks unit :
  guess unicode_lower toks unit
  = fold_left
      (fun st p => guess_body (map (lower unicode_lower) toks) p.1 p.2 st)
      (entries guess_keywords) unit.
Proof.
  cbv beta iota zeta delta [guess allow_guessing]. apply for_each_entries.
Qed.

Lemma pick_units_unit rdesc rvalue :
  dict_get no_unit_values rvalue = None ->
  fst (pick_units unicode_lower rdesc rvalue)
  = join (str " ") (fromkeys (candidates unicode_lower rdesc)).
Proof.
  intros H. unfold pick_units, candidates. rewrite H.
  by destruct (alias_scan rdesc).
Qed.

Lemma candidates_guessed rdesc :
  Forall (fun a => a ∉ tokens rdesc) aliases ->
  guessed (candidates unicode_lower rdesc).
Proof.
  intros H. unfold candidates. rewrite (alias_scan_no_match _ H). simpl.
  rewrite guess_entries. apply guess_fold_guessed; [apply entries_keys|].
  by left.
Qed.

End Units.

(** *** [dict.fromkeys] keeps the first occurrence of every key *)

Lemma fromkeys_from_filter seen l :
  fromkeys_from seen l = filter (fun y => y ∉ seen) (first_occurrences l).
Proof.
  revert seen. induction l as [|x l IH]; intros seen; simpl; [done|].
  destruct (In_list x seen) eqn:E.
  - apply In_list_true in E. rewrite filter_cons_False by tauto.
    rewrite list_filter_filter, IH. apply list_filter_iff.
    intros y. split; [|tauto]. intros Hy. split; [done|congruence].
  - apply In_list_false in E. rewrite filter_cons_True by done.
    f_equal. rewrite list_filter_filter, IH. apply list_filter_iff.
    intros y. rewrite not_elem_of_cons. tauto.
Qed.

Lemma fromkeys_first_occurrences l : fromkeys l = first_occurrences l.
Proof.
  unfold fromkeys. rewrite fromkeys_from_filter.
  induction (first_occurrences l) as [|y l' IH]; [done|].
  rewrite filter_cons_True by apply not_elem_of_nil. by f_equal.
Qed.

Lemma first_occurrences_elem x l : x ∈ first_occurrences l <-> x ∈ l.
Proof.
  induction l as [|y l IH]; simpl; [done|].
  rewrite !elem_of_cons, list_elem_of_filter, IH.
  destruct (decide (x = y)); tauto.
Qed.

Lemma first_occurrences_NoDup l : NoDup (first_occurrences l).
Proof.
  induction l as [|y l IH]; simpl; [constructor|].
  constructor; [|by apply NoDup_filter].
  rewrite list_elem_of_filter. tauto.
Qed.

(** *** The claims about [pick_units] *)
(** C5: for every description [d], [pick_units(d, 'N/A')] is [('N/A', d)]
    and [pick_units(d, '')] is [('', d)]: the value alone decides, whatever
    the description contains. *)
Theorem pick_units_no_unit_value (unicode_lower : pystr -> pystr) (d : pystr) :
  pick_units unicode_lower d (str "N/A") = (str "N/A", d)
  /\ pick_units unicode_lower d (str "") = (str "", d).
Proof. split; reflexivity. Qed.

(** C1, as stated, fails: for no lowercasing table of the interpreter is
    the unit of [pick_units('enclosure area of the region', '5')] the
    string [µm]. *)
Lemma enclosure_area_not_um :
  ~ exists unicode_lower,
      fst (pick_units unicode_lower (str "enclosure area of the region")
             (str "5")) = um.
Proof. intros [ul H]. vm_compute in H. discriminate. Qed.

(** C1, amended: [pick_units('enclosure area of the region', '5')] returns
    the unit [µm²] and the description unchanged.  Both [enclosure] and
    [area] are among the first 2 tokens; [enclosure] sets the candidate to
    [µm], and [area], a keyword of [µm²] whose suffix [m²] differs from the
    suffix [m] of the candidate, then replaces it. *)
Theorem pick_units_enclosure_area (unicode_lower : pystr -> pystr) :
  let rdesc := str "enclosure area of the region" in
  take strong_guess_limit (lowered_tokens unicode_lower rdesc)
    = [str "enclosure"; str "area"]
  /\ guess_body (lowered_tokens unicode_lower rdesc) um (str "enclosure") []
     = [um]
  /\ guess_body (lowered_tokens unicode_lower rdesc) um2 (str "area") [um]
     = [um2]
  /\ pick_units unicode_lower rdesc (str "5") = (um2, rdesc).
Proof. repeat split; vm_compute; reflexivity. Qed.

(** C2, as stated, fails: [pick_units('spacing is 5um', '5')] does not
    return the description [spacing is 5µm]. *)
Lemma spacing_5um_not_rewritten :
  ~ exists unicode_lower,
      pick_units unicode_lower (str "spacing is 5um") (str "5")
      = (um, str "spacing is 5" ++ um).
Proof. intros [ul H]. vm_compute in H. discriminate. Qed.

(** C2, amended: for [pick_units('spacing is 5um', '5')] the tokens are
    [spacing], [is] and [5um], so the alias [um] is not a token and the
    alias loop changes nothing; the unit [µm] comes from the keyword
    [spacing], and the description is returned unchanged. *)
Theorem pick_units_spacing_5um (unicode_lower : pystr -> pystr) :
  let rdesc := str "spacing is 5um" in
  tokens rdesc = [str "spacing"; str "is"; str "5um"]
  /\ alias_scan rdesc = ([], rdesc)
  /\ guess_body (lowered_tokens unicode_lower rdesc) um (str "spacing") []
     = [um]
  /\ pick_units unicode_lower rdesc (str "5") = (um, rdesc).
Proof. repeat split; vm_compute; reflexivity. Qed.

(** C6, as stated, fails in its last part: in [angle mm um] aliases of the
    two distinct units [mm] and [µm] match, and the unit string is [deg],
    not a space-joined string of several units. *)
Lemma angle_mm_um_single_unit :
  let rdesc := str "angle mm um" in
  fst (alias_scan rdesc) = [str "mm"; um]
  /\ forall unicode_lower,
       fst (pick_units unicode_lower rdesc (str "5")) = str "deg".
Proof. split; [|intros ul]; vm_compute; reflexivity. Qed.

(** C6, amended: for a value outside the no-unit values, the unit string is
    the candidate list, deduplicated in the order of the first occurrences,
    joined with single spaces.  It is empty when no alias is a token and no
    keyword is a lowered token.  When aliases match and no keyword fires as
    a strong guess (a keyword among the first 2 lowered tokens whose unit
    suffix is not the suffix of a matched unit), it is the space-joined
    string of the matched units. *)
Theorem pick_units_unit_string (unicode_lower : pystr -> pystr)
    (rdesc rvalue : pystr) :
  dict_get no_unit_values rvalue = None ->
  let unit := fst (pick_units unicode_lower rdesc rvalue) in
  let found := fst (alias_scan rdesc) in
  let ltoks := lowered_tokens unicode_lower rdesc in
  unit = join (str " ") (first_occurrences (candidates unicode_lower rdesc))
  /\ NoDup (first_occurrences (candidates unicode_lower rdesc))
  /\ (Forall (fun a => a ∉ tokens rdesc) aliases ->
      Forall (fun k => k ∉ ltoks) keywords -> unit = [])
  /\ (found <> [] ->
      Forall (fun p => ~ strong_guess ltoks found p) (entries guess_keywords) ->
      unit = join (str " ") (first_occurrences found)).
Proof.
  intros Hv unit found ltoks. subst unit.
  rewrite (pick_units_unit _ _ _ Hv), fromkeys_first_occurrences.
  split; [done|]. split; [apply first_occurrences_NoDup|].
  unfold candidates. rewrite guess_entries. split.
  - intros Ha Hk. rewrite (alias_scan_no_match _ Ha). cbn [fst].
    rewrite guess_fold_no_match; [done | exact Hk].
  - intros Hne Hs. rewrite guess_fold_keep; [done | exact Hne | exact Hs].
Qed.

(** C6, an instance: in [mm um now] the aliases of [mm] and [µm] match and
    no keyword is among the first 2 tokens; the unit string is [mm µm]. *)
Lemma pick_units_unit_string_witness :
  fst (pick_units (fun s => s) (str "mm um now") (str "0.5"))
  = str "mm " ++ um.
Proof.
  destruct (pick_units_unit_string (fun s => s) (str "mm um now") (str "0.5"))
    as (_ & _ & _ & H); [reflexivity|].
  rewrite H; [reflexivity | vm_compute; discriminate |].
  apply Forall_forall. intros p Hp [Hin _]. revert Hin.
  apply (Forall_forall (fun p : pystr * pystr => p.2 ∉ _) (entries guess_keywords));
    [|exact Hp].
  apply (bool_decide_unpack _). vm_compute. exact I.
Defined.

(** C7: when no alias is a token of the description and [density] is the
    only keyword among its lowered tokens (the value being outside the
    no-unit values), the unit string is the two characters backslash and
    dash. *)
Theorem pick_units_density (unicode_lower : pystr -> pystr)
    (rdesc rvalue : pystr) :
  dict_get no_unit_values rvalue = None ->
  Forall (fun a => a ∉ tokens rdesc) aliases ->
  Forall (fun k => k ∈ lowered_tokens unicode_lower rdesc -> k = str "density")
    keywords ->
  str "density" ∈ lowered_tokens unicode_lower rdesc ->
  fst (pick_units unicode_lower rdesc rvalue) = str "\-".
Proof.
  intros Hv Ha Hk Hd.
  rewrite (pick_units_unit _ _ _ Hv). unfold candidates.
  rewrite (alias_scan_no_match _ Ha), guess_entries. simpl fst.
  change (entries guess_keywords)
    with (take 16 (entries guess_keywords) ++ [(str "\-", str "density")]).
  rewrite fold_left_app.
  rewrite (guess_fold_no_match _ (take 16 (entries guess_keywords))).
  - cbn [fold_left]. rewrite guess_body_first by exact Hd. reflexivity.
  - apply Forall_forall. intros k Hin Hl.
    assert (k ∈ keywords) as Hkw.
    { unfold keywords. revert Hin. rewrite !list_elem_of_fmap.
      intros (p & -> & Hp). exists p. split; [done|].
      by eapply in_take. }
    rewrite Forall_forall in Hk. specialize (Hk k Hkw Hl). subst k.
    revert Hin. apply (bool_decide_unpack _). vm_compute. exact I.
Qed.

(** C7, an instance: the description [metal density rule]. *)
Lemma pick_units_density_witness :
  fst (pick_units (fun s => s) (str "metal density rule") (str "5")) = str "\-".
Proof.
  apply pick_units_density.
  - reflexivity.
  - apply (bool_decide_unpack _). vm_compute. exact I.
  - apply (bool_decide_unpack _). vm_compute. exact I.
  - apply (bool_decide_unpack _). vm_compute. exact I.
Defined.

(** C9: when no alias is a token of the description (the value being
    outside the no-unit values), the unit string is empty or one label of
    the keyword catalog ([deg], [µm], [µm²] or the density placeholder):
    guessing never yields a string of several units. *)
Theorem pick_units_guess_single (unicode_lower : pystr -> pystr)
    (rdesc rvalue : pystr) :
  dict_get no_unit_values rvalue = None ->
  Forall (fun a => a ∉ tokens rdesc) aliases ->
  fst (pick_units unicode_lower rdesc rvalue)
    ∈ [str ""; str "deg"; um; um2; str "\-"].
Proof.
  intros Hv Ha. rewrite (pick_units_unit _ _ _ Hv).
  destruct (candidates_guessed unicode_lower _ Ha) as [->|(u & Hu & ->)].
  - apply list_elem_of_here.
  - apply list_elem_of_further. exact Hu.
Qed.

(** C9, an instance: the description [Minimum width]. *)
Lemma pick_units_guess_single_witness :
  fst (pick_units (fun s => s) (str "Minimum width") (str "0.5"))
    ∈ [str ""; str "deg"; um; um2; str "\-"].
Proof.
  apply pick_units_guess_single.
  - reflexivity.
  - apply (bool_decide_unpack _). vm_compute. exact I.
Defined.

End PeripheryFacts.

(** * Properties of the table rewrite *)
Module RewriterFacts.
Import Py Periphery Samples.

Lemma tmp_ne (infile : pystr) : infile ++ str ".tmp" <> infile.
Proof.
  intros H. apply (f_equal length) in H. rewrite length_app in H.
  simpl in H. lia.
Qed.

(** C3, as stated, fails for the grammar of the comma-list parser.  With a
    double quote for each [Q], the line [id,[mm]Qb [mm],cQ,val] has the 4
    fields [id], [[mm]Qb [mm]], [cQ] and [val], and is rewritten to
    [id,Qb ,cQ,val,mm]; there the filtered description and the next field
    form one quoted field, the row has 4 fields again, and the second pass
    rewrites it to [id,Qb ,cQ,val,mm,] instead of writing it verbatim. *)
Lemma second_pass_not_verbatim :
  ~ forall unicode_lower l out,
      rewrite_line unicode_lower Pyparsing.commaSeparatedList l = Ok out ->
      rewrite_line unicode_lower Pyparsing.commaSeparatedList out = Ok out.
Proof.
  intros H.
  specialize (H (fun s => s) merging_line
    (str "id," ++ [DQ] ++ str "b ,c" ++ [DQ] ++ str ",val,mm" ++ [NL])).
  specialize (H eq_refl). vm_compute in H. discriminate.
Qed.

(** C3: the rewrite is not idempotent at the row [id,[mm]Qb [mm],cQ,val],
    with a double quote for each [Q].  The first pass reads the 4 fields
    [id], [[mm]Qb [mm]], [cQ] and [val] and writes [id,Qb ,cQ,val,mm], a row
    with its unit column.  On that row the filtered description and the
    next field form one quoted field, so the second pass reads 4 fields
    again, [id], [Qb ,cQ], [val] and [mm], takes the unit for the value,
    and appends a second unit column, [id,Qb ,cQ,val,mm,], instead of
    writing the row verbatim. *)
Theorem second_pass_appends_again (unicode_lower : pystr -> pystr) :
  let out1 := str "id," ++ [DQ] ++ str "b ,c" ++ [DQ] ++ str ",val,mm" ++ [NL] in
  let out2 := str "id," ++ [DQ] ++ str "b ,c" ++ [DQ] ++ str ",val,mm," ++ [NL] in
  Pyparsing.commaSeparatedList merging_line
    = Some [str "id"; str "[mm]" ++ [DQ] ++ str "b [mm]"; str "c" ++ [DQ];
            str "val"]
  /\ rewrite_line unicode_lower Pyparsing.commaSeparatedList merging_line
     = Ok out1
  /\ Pyparsing.commaSeparatedList out1
     = Some [str "id"; [DQ] ++ str "b ,c" ++ [DQ]; str "val"; str "mm"]
  /\ rewrite_line unicode_lower Pyparsing.commaSeparatedList out1 = Ok out2
  /\ out2 <> out1.
Proof.
  repeat split; try (vm_compute; reflexivity). vm_compute. discriminate.
Qed.

(** C4: when a pass ends with an exception, the source file is what it was
    before the call: the file system differs from the initial one only in
    the temporary file, which holds what was written so far and has not
    been moved. *)
Theorem failed_pass_keeps_source (unicode_lower : pystr -> pystr)
    (parseString : pystr -> option (list pystr)) (infile : pystr)
    (fs fs' : gmap pystr pystr) (e : exn) :
  append_units_to_periphery_csv unicode_lower parseString infile fs
    = (fs', Some e) ->
  fs' !! infile = fs !! infile
  /\ exists written, fs' = <[infile ++ str ".tmp" := written]> fs.
Proof.
  unfold append_units_to_periphery_csv.
  rewrite lookup_insert_ne by apply tmp_ne.
  destruct (fs !! infile) as [text|] eqn:Hin.
  - destruct (rewrite_lines _ _ _ _) as [written [e'|]]; [|discriminate].
    intros [= <- <-]. rewrite insert_insert_eq.
    rewrite lookup_insert_ne by apply tmp_ne. eauto.
  - intros [= <- <-]. rewrite lookup_insert_ne by apply tmp_ne. eauto.
Qed.

(** C4, an instance: the parser raises on the second line of the table; the
    table is unchanged and the temporary file holds the first row. *)
Lemma failed_pass_keeps_source_witness :
  let r := append_units_to_periphery_csv (fun s => s) forced_failure
             (str "periphery.csv") disk in
  r.2 = Some ParseException
  /\ r.1 !! str "periphery.csv" = Some table
  /\ r.1 !! str "periphery.csv.tmp"
     = Some (str "RULE1,Minimum width,x,0.5," ++ [181%N] ++ str "m" ++ [NL]).
Proof.
  intros r.
  assert (r.2 = Some ParseException) as He by (vm_compute; reflexivity).
  destruct (failed_pass_keeps_source (fun s => s) forced_failure
              (str "periphery.csv") disk r.1 ParseException) as [Hsrc _].
  { rewrite <- He. apply surjective_pairing. }
  split; [exact He|]. split.
  - rewrite Hsrc. vm_compute. reflexivity.
  - vm_compute. reflexivity.
Defined.

End RewriterFacts.

(** * Properties of the markup rewriter *)
Module SubscriptFacts.
Import Py SubscriptToMath.

Lemma startswith_app (p s : pystr) :
  startswith p s = true -> s = p ++ drop (length p) s.
Proof.
  revert s. induction p as [|a p IH]; intros [|b s] H; simpl in *;
    try done.
  apply andb_prop in H as [Hab Hp]. apply N.eqb_eq in Hab. subst b.
  f_equal. by apply IH.
Qed.

(** [find] returns an index not below [start] at which [sub] occurs. *)
Lemma find_from_spec (sub s : pystr) (i start j : nat) :
  find_from sub s i start = Some j ->
  start <= j /\ i <= j
  /\ exists pre post, s = pre ++ sub ++ post /\ length pre = j - i.
Proof.
  revert i. induction s as [|c s IH]; intros i; simpl.
  - destruct (start <=? i) eqn:Hs; simpl; [|done].
    destruct (startswith sub []) eqn:Hp; [|done].
    intros [= <-]. apply Nat.leb_le in Hs. repeat split; try lia.
    exists [], []. apply startswith_app in Hp. rewrite drop_nil in Hp.
    split; [by rewrite app_nil_l | simpl; lia].
  - destruct ((start <=? i) && startswith sub (c :: s)) eqn:Hc.
    + intros [= <-]. apply andb_prop in Hc as [Hs Hp].
      apply Nat.leb_le in Hs. repeat split; try lia.
      exists [], (drop (length sub) (c :: s)).
      split; [by apply startswith_app | simpl; lia].
    + intros H. apply IH in H as (H1 & H2 & pre & post & -> & Hlen).
      repeat split; try lia. exists (c :: pre), post.
      split; [done | simpl; lia].
Qed.

Lemma find_spec (sub s : pystr) (start j : nat) :
  find sub s start = Some j ->
  start <= j /\ exists pre post, s = pre ++ sub ++ post /\ length pre = j.
Proof.
  intros H. apply find_from_spec in H as (H1 & _ & pre & post & Hs & Hl).
  split; [done|]. exists pre, post. split; [done | lia].
Qed.

(** An iteration that does not return removes one tag and the backtick
    that closes it. *)
Lemma strip_math_step_removes (s s' : pystr) :
  strip_math_step s = inl s' ->
  exists a b c, s = a ++ math_tag ++ b ++ [BQ] ++ c /\ s' = a ++ b ++ c.
Proof.
  unfold strip_math_step.
  destruct (find math_tag s 0) as [start|] eqn:H1; [|done].
  destruct (find [BQ] s (start + length math_tag)) as [stop|] eqn:H2; [|done].
  intros [= <-].
  apply find_spec in H1 as (_ & pre1 & post1 & Hs1 & Hl1).
  apply find_spec in H2 as (Hle & pre2 & post2 & Hs2 & Hl2).
  change (length math_tag) with 7 in *.
  exists pre1, (drop (start + 7) pre2), post2.
  assert (take start s = pre1) as ->.
  { rewrite Hs1. by rewrite take_app_length'. }
  assert (drop (stop + 1) s = post2) as ->.
  { rewrite Hs2, app_assoc. rewrite drop_app_length'; [done|].
    rewrite length_app. simpl. lia. }
  assert (post1 = drop (start + 7) pre2 ++ [BQ] ++ post2) as Hp.
  { assert (drop (start + 7) s = post1) as <-.
    { rewrite Hs1, app_assoc. rewrite drop_app_length'; [done|].
      rewrite length_app. change (length math_tag) with 7. lia. }
    rewrite Hs2. rewrite drop_app_le by lia. done. }
  split.
  - rewrite Hs1 at 1. by rewrite Hp.
  - f_equal. f_equal. unfold slice.
    rewrite Hs2. rewrite drop_app_le by lia.
    rewrite take_app_length'; [done|]. rewrite length_drop. lia.
Qed.

Lemma strip_math_step_shorter (s s' : pystr) :
  strip_math_step s = inl s' -> length s' + 8 = length s.
Proof.
  intros H. apply strip_math_step_removes in H as (a & b & c & -> & ->).
  rewrite !length_app. simpl. lia.
Qed.

Lemma strip_math_loop_returns (fuel : nat) (s : pystr) :
  length s < fuel -> exists r, strip_math_loop fuel s = Some r.
Proof.
  revert s. induction fuel as [|fuel IH]; intros s Hlen; [lia|]. simpl.
  destruct (strip_math_step s) as [s'|r] eqn:Hstep; [|eauto].
  apply IH. apply strip_math_step_shorter in Hstep. lia.
Qed.

Lemma strip_math_loop_more (fuel fuel' : nat) (s r : pystr) :
  strip_math_loop fuel s = Some r -> fuel <= fuel' ->
  strip_math_loop fuel' s = Some r.
Proof.
  revert fuel' s. induction fuel as [|fuel IH]; intros fuel' s; [done|].
  destruct fuel' as [|fuel']; [lia|]. simpl.
  destruct (strip_math_step s); [|done].
  intros H Hle. apply IH; [done | lia].
Qed.

(** C10: [strip_math] terminates on every input.  An iteration of its loop
    that does not return removes one [:math:`] tag and one backtick, so the
    string gets 8 characters shorter; run for more iterations than the
    string has characters, the loop returns, and its result does not
    depend on the bound. *)
Theorem strip_math_terminates (s : pystr) :
  (forall s', strip_math_step s = inl s' ->
     (exists a b c, s = a ++ math_tag ++ b ++ [BQ] ++ c /\ s' = a ++ b ++ c)
     /\ length s' < length s)
  /\ (forall fuel, length s < fuel ->
        strip_math_loop fuel s = Some (strip_math s)).
Proof.
  split.
  - intros s' H. split; [by apply strip_math_step_removes|].
    apply strip_math_step_shorter in H. lia.
  - intros fuel Hlen. unfold strip_math.
    destruct (strip_math_loop_returns fuel s Hlen) as [r Hr].
    destruct (strip_math_loop_returns (S (length s)) s (Nat.lt_succ_diag_r _))
      as [r' Hr'].
    rewrite Hr'. simpl. rewrite Hr. f_equal.
    destruct (Nat.le_ge_cases fuel (S (length s))) as [Hle|Hle].
    + apply (strip_math_loop_more _ _ _ _ Hr) in Hle. congruence.
    + apply (strip_math_loop_more _ _ _ _ Hr') in Hle. congruence.
Qed.

(** C10, an instance: a string in which removing a tag forms a new one. *)
Lemma strip_math_terminates_witness :
  strip_math_loop 20 (str ":ma:math:`th:``x`") = Some (str "x")
  /\ strip_math (str ":ma:math:`th:``x`") = str "x".
Proof.
  destruct (strip_math_terminates (str ":ma:math:`th:``x`")) as [_ H].
  split.
  - rewrite (H 20) by (simpl; lia). vm_compute. reflexivity.
  - vm_compute. reflexivity.
Defined.

(** C8: the line [A\ :sub:`x`] is rewritten to the line [:math:`A_x`], and
    the line [:math:`A`/:math:`B`] to the line [:math:`\frac{A}{B}`]; the
    lines are those of a file, each ended by its newline. *)
Theorem patch_line_subscript_and_fraction (unicode_isalnum : N -> bool) :
  patch_line unicode_isalnum (str "A\ :sub:`x`" ++ [NL])
    = inl (str ":math:`A_x`" ++ [NL])
  /\ patch_line unicode_isalnum (str ":math:`A`/:math:`B`" ++ [NL])
    = inl (str ":math:`\frac{A}{B}`" ++ [NL])
  /\ contains (str ":math:`A_x`") (str ":math:`A_x`" ++ [NL]) = true
  /\ contains (str ":math:`\frac{A}{B}`") (str ":math:`\frac{A}{B}`" ++ [NL])
     = true.
Proof. repeat split; vm_compute; reflexivity. Qed.

(** The steps of the first rewrite of C8: the subscript pattern matches the
    whole expression and [patch_sub] turns it into a math expression. *)
Example patch_sub_A_x (unicode_isalnum : N -> bool) :
  re_search (sub unicode_isalnum) (str "A\ :sub:`x`" ++ [NL])
    = Some (str "A\ :sub:`x`")
  /\ patch_sub (str "A\ :sub:`x`") = str ":math:`A_x`".
Proof. split; vm_compute; reflexivity. Qed.

(** The last line of a file that does not end with a newline: when the
    match reaches the end of the line, [line[i]] is out of range. *)
Example patch_line_unterminated (unicode_isalnum : N -> bool) :
  patch_line unicode_isalnum (str "A\ :sub:`x`") = inr IndexError.
Proof. vm_compute. reflexivity. Qed.

End SubscriptFacts.

(** * Further properties of the unit inference *)
Module UnitFacts.
Import Py Periphery PeripheryFacts.

Lemma alias_fold_found toks (ps : list (pystr * pystr)) st :
  fst (fold_left (fun st p => alias_body toks p.1 p.2 st) ps st)
  = fst st ++ map fst (filter (fun p => p.2 ∈ toks) ps).
Proof.
  revert st. induction ps as [|[u a] ps IH]; intros [unit rdesc]; simpl.
  - by rewrite app_nil_r.
  - rewrite IH. unfold alias_body.
    destruct (In_list a toks) eqn:E.
    + apply In_list_true in E. rewrite filter_cons_True by done.
      simpl. by rewrite <- app_assoc.
    + apply In_list_false in E. by rewrite filter_cons_False by done.
Qed.

Lemma alias_scan_units (rdesc : pystr) :
  fst (alias_scan rdesc)
  = map fst (filter (fun p => p.2 ∈ tokens rdesc) (entries desc_picks)).
Proof.
  unfold alias_scan. rewrite for_each_entries. apply alias_fold_found.
Qed.

(** X1: after the alias loop the candidates are the units of the aliases
    that are tokens of the description, one per matching alias, in the
    order of the catalog (not in the order of the description). *)
Theorem alias_scan_found (rdesc : pystr) :
  fst (alias_scan rdesc)
  = map fst (filter (fun p => p.2 ∈ tokens rdesc) (entries desc_picks)).
Proof. exact (alias_scan_units rdesc). Qed.

Lemma alias_fold_description toks (ps : list (pystr * pystr)) st :
  snd (fold_left (fun st p => alias_body toks p.1 p.2 st) ps st)
  = fold_left
      (fun d p =>
         replace p.2 (if bool_decide (last toks = Some p.2) then [] else p.1) d)
      (filter (fun p => p.2 ∈ toks) ps) (snd st).
Proof.
  revert st. induction ps as [|[u a] ps IH]; intros [unit rdesc]; simpl;
    [done|].
  rewrite IH. unfold alias_body.
  destruct (In_list a toks) eqn:E.
  - apply In_list_true in E. rewrite filter_cons_True by done. simpl.
    by destruct (bool_decide (last toks = Some a)).
  - apply In_list_false in E. by rewrite filter_cons_False by done.
Qed.

(** X2: the filtered description is the description in which, for every
    alias that is a token, in the order of the catalog, all the occurrences
    of the alias have been replaced, also those inside longer words: by
    the unit, or by nothing when the alias is the last token. *)
Theorem alias_scan_description (rdesc : pystr) :
  snd (alias_scan rdesc)
  = fold_left
      (fun d p =>
         replace p.2
           (if bool_decide (last (tokens rdesc) = Some p.2) then [] else p.1)
           d)
      (filter (fun p => p.2 ∈ tokens rdesc) (entries desc_picks)) rdesc.
Proof.
  unfold alias_scan. rewrite for_each_entries. apply alias_fold_description.
Qed.

(** The alias [um] is a token of [um is the maximum]; its occurrence inside
    [maximum] is replaced as well. *)
Example um_inside_a_word (unicode_lower : pystr -> pystr) :
  pick_units unicode_lower (str "um is the maximum") (str "5")
  = (um, um ++ str " is the maxim" ++ um).
Proof. vm_compute. reflexivity. Qed.

(** X3: when no alias is a token of the description, [pick_units] returns
    the description as it received it, whatever the value and the keywords:
    a unit found by a keyword alone changes no text. *)
Theorem pick_units_keeps_description (unicode_lower : pystr -> pystr)
    (rdesc rvalue : pystr) :
  Forall (fun a => a ∉ tokens rdesc) aliases ->
  snd (pick_units unicode_lower rdesc rvalue) = rdesc.
Proof.
  intros H. unfold pick_units.
  destruct (dict_get no_unit_values rvalue); [done|].
  by rewrite (alias_scan_no_match _ H).
Qed.

Lemma pick_units_keeps_description_witness :
  snd (pick_units (fun s => s) (str "Minimum width") (str "0.5"))
  = str "Minimum width".
Proof.
  apply pick_units_keeps_description.
  apply (bool_decide_unpack _). vm_compute. exact I.
Defined.

(** The candidates are labels of the catalogs. *)
Lemma guess_body_labels toks u k unit :
  u ∈ map fst guess_keywords -> Forall (fun x => x ∈ labels) unit ->
  Forall (fun x => x ∈ labels) (guess_body toks u k unit).
Proof.
  intros Hu Hl. unfold guess_body.
  assert (Forall (fun x => x ∈ labels) [u]) as Hone.
  { constructor; [|constructor]. unfold labels. apply elem_of_app. by right. }
  destruct (_ && negb _); simpl.
  - by destruct (In_list k toks).
  - by destruct (_ && _).
Qed.

Lemma guess_fold_labels toks (ps : list (pystr * pystr)) unit :
  Forall (fun u => u ∈ map fst guess_keywords) (map fst ps) ->
  Forall (fun x => x ∈ labels) unit ->
  Forall (fun x => x ∈ labels)
    (fold_left (fun st p => guess_body toks p.1 p.2 st) ps unit).
Proof.
  revert unit. induction ps as [|[u k] ps IH]; intros unit H Hl; simpl; [done|].
  inversion H; subst. apply IH; [done|]. by apply guess_body_labels.
Qed.

Lemma alias_scan_labels rdesc :
  Forall (fun x => x ∈ labels) (fst (alias_scan rdesc)).
Proof.
  rewrite alias_scan_units. apply Forall_forall. intros u Hu.
  apply list_elem_of_fmap in Hu as ([u' a] & -> & Hp).
  apply list_elem_of_filter in Hp as [_ Hp]. simpl.
  assert (u' ∈ map fst (entries desc_picks)) as Hin
    by (apply list_elem_of_fmap; by exists (u', a)).
  revert Hin.
  apply (Forall_forall (fun u => u ∈ labels) (map fst (entries desc_picks))).
  apply (bool_decide_unpack _). vm_compute. exact I.
Qed.

Lemma candidates_labels unicode_lower rdesc :
  Forall (fun x => x ∈ labels) (candidates unicode_lower rdesc).
Proof.
  unfold candidates. rewrite guess_entries.
  apply guess_fold_labels; [apply entries_keys | apply alias_scan_labels].
Qed.

(** X4: for a value outside the no-unit values, the unit string is a
    space-joined list, without repetition, of labels of the two catalogs:
    [pick_units] never returns a unit that is not in its tables. *)
Theorem pick_units_unit_labels (unicode_lower : pystr -> pystr)
    (rdesc rvalue : pystr) :
  dict_get no_unit_values rvalue = None ->
  exists us, NoDup us /\ Forall (fun u => u ∈ labels) us
    /\ fst (pick_units unicode_lower rdesc rvalue) = join (str " ") us.
Proof.
  intros Hv. exists (first_occurrences (candidates unicode_lower rdesc)).
  split; [apply first_occurrences_NoDup|]. split.
  - apply Forall_forall. intros u Hu.
    apply (proj1 (first_occurrences_elem _ _)) in Hu.
    exact (proj1 (Forall_forall _ _) (candidates_labels _ _) u Hu).
  - by rewrite (pick_units_unit _ _ _ Hv), fromkeys_first_occurrences.
Qed.

Lemma pick_units_unit_labels_witness :
  exists us, NoDup us /\ Forall (fun u => u ∈ labels) us
    /\ fst (pick_units (fun s => s) (str "mm um now") (str "0.5"))
       = join (str " ") us.
Proof. apply pick_units_unit_labels. reflexivity. Defined.

(** *** When the unit is empty *)

Lemma guess_body_nonempty toks u k unit :
  unit <> [] \/ k ∈ toks -> guess_body toks u k unit <> [].
Proof.
  intros H. unfold guess_body.
  destruct (_ && negb _); simpl.
  - by destruct (In_list k toks).
  - destruct unit as [|x unit]; simpl; [|done].
    destruct H as [H|H]; [done|].
    apply In_list_true in H. by rewrite H.
Qed.

Lemma guess_fold_nonempty toks (ps : list (pystr * pystr)) unit :
  unit <> [] \/ Exists (fun k => k ∈ toks) (map snd ps) ->
  fold_left (fun st p => guess_body toks p.1 p.2 st) ps unit <> [].
Proof.
  revert unit. induction ps as [|[u k] ps IH]; intros unit H; simpl.
  - destruct H as [H|H]; [done | inversion H].
  - apply IH. destruct H as [H|H].
    + left. apply guess_body_nonempty. by left.
    + inversion H as [? ? Hk|? ? Hk]; subst; [|by right].
      left. apply guess_body_nonempty. by right.
Qed.

Lemma labels_nonempty : Forall (fun u => u <> []) labels.
Proof. apply (bool_decide_unpack _). vm_compute. exact I. Qed.

Lemma join_nonempty sep (x : pystr) l : x <> [] -> join sep (x :: l) <> [].
Proof. intros Hx. destruct l; simpl; [done|]. by destruct x. Qed.

(** X5: for a value outside the no-unit values, the unit string is empty
    exactly when no alias is a token of the description and no keyword is
    a lowered token: any match gives a unit. *)
Theorem pick_units_empty_iff (unicode_lower : pystr -> pystr)
    (rdesc rvalue : pystr) :
  dict_get no_unit_values rvalue = None ->
  fst (pick_units unicode_lower rdesc rvalue) = []
  <-> Forall (fun a => a ∉ tokens rdesc) aliases
      /\ Forall (fun k => k ∉ lowered_tokens unicode_lower rdesc) keywords.
Proof.
  intros Hv. rewrite (pick_units_unit _ _ _ Hv), fromkeys_first_occurrences.
  split.
  - intros Hempty.
    assert (candidates unicode_lower rdesc = []) as Hc.
    { pose proof (candidates_labels unicode_lower rdesc) as Hl.
      destruct (candidates unicode_lower rdesc) as [|x l]; [done|].
      exfalso. cbn [first_occurrences] in Hempty. revert Hempty.
      apply join_nonempty.
      inversion Hl; subst.
      by apply (proj1 (Forall_forall _ _) labels_nonempty x). }
    unfold candidates in Hc. rewrite guess_entries in Hc.
    destruct (decide (Forall (fun a => a ∉ tokens rdesc) aliases)) as [Ha|Ha].
    + split; [done|]. rewrite (alias_scan_no_match _ Ha) in Hc.
      destruct (decide (Forall
        (fun k => k ∉ lowered_tokens unicode_lower rdesc) keywords))
        as [Hk|Hk]; [done|].
      exfalso. revert Hc. apply guess_fold_nonempty. right.
      apply not_Forall_Exists in Hk; [|apply _].
      eapply Exists_impl; [exact Hk|]. simpl. intros k Hnn.
      by apply dec_stable.
    + exfalso. revert Hc. apply guess_fold_nonempty. left.
      rewrite alias_scan_units.
      apply not_Forall_Exists in Ha; [|apply _].
      apply Exists_exists in Ha as (a & Hin & Hnn).
      apply dec_stable in Hnn.
      apply list_elem_of_fmap in Hin as ([u a'] & -> & Hp).
      intros Hnil. apply fmap_nil_inv in Hnil.
      assert ((u, a') ∈ filter (fun p : pystr * pystr => p.2 ∈ tokens rdesc)
                (entries desc_picks)) as Hf
        by (by apply list_elem_of_filter).
      rewrite Hnil in Hf. by apply not_elem_of_nil in Hf.
  - intros [Ha Hk]. unfold candidates.
    rewrite (alias_scan_no_match _ Ha), guess_entries. cbn [fst].
    rewrite guess_fold_no_match; [done | exact Hk].
Qed.

Lemma pick_units_empty_iff_witness :
  fst (pick_units (fun s => s) (str "see the note") (str "5")) = [].
Proof.
  apply pick_units_empty_iff; [reflexivity|].
  split; apply (bool_decide_unpack _); vm_compute; exact I.
Defined.

(** *** The regular guess *)

Lemma guess_fold_first toks (ps : list (pystr * pystr)) :
  Forall (fun k => k ∉ take strong_guess_limit toks) (map snd ps) ->
  fold_left (fun st p => guess_body toks p.1 p.2 st) ps []
  = match head (filter (fun p => p.2 ∈ toks) ps) with
    | Some p => [p.1]
    | None => []
    end.
Proof.
  induction ps as [|[u k] ps IH]; intros H; simpl; [done|].
  inversion H as [|? ? Hk Hps]; subst.
  destruct (decide (k ∈ toks)) as [Hin|Hin].
  - rewrite filter_cons_True by done. simpl.
    rewrite guess_body_first by done.
    apply guess_fold_keep; [done|].
    apply Forall_forall. intros p Hp [Hs _].
    apply (proj1 (Forall_forall _ _) Hps p.2); [|done].
    apply list_elem_of_fmap. by exists p.
  - rewrite filter_cons_False by done.
    rewrite guess_body_no_match by done. by apply IH.
Qed.

(** X6: when no alias is a token of the description and no keyword is
    among its first 2 lowered tokens, the unit is that of the first entry,
    in the order of the keyword catalog, whose keyword is a lowered token
    (and empty when there is none): the catalog order decides, not the
    order of the words in the description. *)
Theorem pick_units_regular_guess (unicode_lower : pystr -> pystr)
    (rdesc rvalue : pystr) :
  dict_get no_unit_values rvalue = None ->
  Forall (fun a => a ∉ tokens rdesc) aliases ->
  Forall (fun k => k ∉ take strong_guess_limit
                         (lowered_tokens unicode_lower rdesc)) keywords ->
  fst (pick_units unicode_lower rdesc rvalue)
  = match head (filter (fun p => p.2 ∈ lowered_tokens unicode_lower rdesc)
                  (entries guess_keywords)) with
    | Some p => p.1
    | None => []
    end.
Proof.
  intros Hv Ha Hk. rewrite (pick_units_unit _ _ _ Hv). unfold candidates.
  rewrite (alias_scan_no_match _ Ha), guess_entries. cbn [fst].
  rewrite guess_fold_first by exact Hk.
  unfold lowered_tokens, tokens. by destruct (head _).
Qed.

(** X6, an instance: in [the minimum area and width] the keyword [area]
    comes first, and the unit is that of [width], whose entry precedes the
    entry of [area] in the catalog. *)
Lemma pick_units_regular_guess_witness :
  fst (pick_units (fun s => s) (str "the minimum area and width") (str "5"))
  = um.
Proof.
  rewrite pick_units_regular_guess.
  - vm_compute. reflexivity.
  - reflexivity.
  - apply (bool_decide_unpack _). vm_compute. exact I.
  - apply (bool_decide_unpack _). vm_compute. exact I.
Defined.

End UnitFacts.

(** * Further properties of the table rewrite *)
Module TableFacts.
Import Py Periphery.

Section Pass.
Variable unicode_lower : pystr -> pystr.
Variable parseString : pystr -> option (list pystr).

Abbreviation rewrite_line := (rewrite_line unicode_lower parseString).
Abbreviation rewrite_lines := (rewrite_lines unicode_lower parseString).

(** The loop stops at the first line that raises; what is written is the
    output of the lines before it. *)
Lemma rewrite_lines_spec (ls : list pystr) (w out : pystr) (r : option exn) :
  rewrite_lines ls w = (out, r) ->
  exists done outs,
    Forall2 (fun l o => rewrite_line l = Ok o) done outs
    /\ out = w ++ concat outs
    /\ match r with
       | None => done = ls
       | Some e => exists l rest, ls = done ++ l :: rest
                                  /\ rewrite_line l = Raise e
       end.
Proof.
  revert w. induction ls as [|l ls IH]; intros w; simpl.
  - intros [= <- <-]. exists [], []. by rewrite app_nil_r.
  - destruct (rewrite_line l) as [o|e] eqn:Hl.
    + intros H. apply IH in H as (done & outs & HF & -> & Hr).
      exists (l :: done), (o :: outs). split; [by constructor|].
      split; [simpl; by rewrite <- app_assoc|].
      destruct r as [e|]; [|by subst].
      destruct Hr as (l' & rest & -> & Hl'). by exists l', rest.
    + intros [= <- <-]. exists [], []. split; [constructor|].
      split; [by rewrite app_nil_r|]. by exists l, ls.
Qed.

End Pass.

Lemma concat_file_lines (s : pystr) : concat (file_lines s) = s.
Proof.
  induction s as [|c s IH]; simpl; [done|].
  destruct (c =? NL)%N; simpl; [by rewrite IH|].
  destruct (file_lines s) as [|l ls]; simpl in *; by rewrite <- IH.
Qed.

Lemma universal_newlines_id (s : pystr) :
  13%N ∉ s -> universal_newlines s = s.
Proof.
  induction s as [|c s IH]; simpl; [done|].
  intros H. apply not_elem_of_cons in H as [Hc Hs].
  destruct (c =? 13)%N eqn:E; [apply N.eqb_eq in E; congruence|].
  by rewrite IH.
Qed.

(** X7: a pass that completes replaces the table by the concatenation of
    the lines written, and leaves no temporary file: the file system after
    it is the initial one with the table set to the output and the path
    [infile + '.tmp'] removed, whatever that path held before.  No other
    path changes. *)
Theorem completed_pass (unicode_lower : pystr -> pystr)
    (parseString : pystr -> option (list pystr)) (infile : pystr)
    (fs fs' : gmap pystr pystr) :
  append_units_to_periphery_csv unicode_lower parseString infile fs
    = (fs', None) ->
  exists text outs,
    fs !! infile = Some text
    /\ Forall2 (fun l o => rewrite_line unicode_lower parseString l = Ok o)
         (file_lines (universal_newlines text)) outs
    /\ fs' = <[infile := concat outs]> (delete (infile ++ str ".tmp") fs).
Proof.
  unfold append_units_to_periphery_csv.
  rewrite lookup_insert_ne by apply RewriterFacts.tmp_ne.
  destruct (fs !! infile) as [text|]; [|done].
  destruct (Periphery.rewrite_lines _ _ _ _) as [written [e|]] eqn:Hl;
    [done|].
  intros [= <-]. exists text.
  apply rewrite_lines_spec in Hl as (done & outs & HF & -> & ->).
  exists outs. split; [done|]. split; [done|].
  unfold shutil_move. rewrite lookup_insert_eq.
  by rewrite !delete_insert_eq.
Qed.

Lemma completed_pass_witness :
  exists text outs,
    ({[ str "periphery.csv" := str "RULE1,Minimum width,x,0.5" ++ [NL] ]}
       : gmap pystr pystr) !! str "periphery.csv" = Some text
    /\ Forall2 (fun l o => rewrite_line (fun s => s)
                             Pyparsing.commaSeparatedList l = Ok o)
         (file_lines (universal_newlines text)) outs
    /\ fst (append_units_to_periphery_csv (fun s => s)
              Pyparsing.commaSeparatedList (str "periphery.csv")
              {[ str "periphery.csv" := str "RULE1,Minimum width,x,0.5" ++ [NL] ]})
       = <[str "periphery.csv" := concat outs]>
           (delete (str "periphery.csv" ++ str ".tmp")
              {[ str "periphery.csv" := str "RULE1,Minimum width,x,0.5" ++ [NL] ]}).
Proof.
  apply completed_pass.
  rewrite (surjective_pairing (append_units_to_periphery_csv _ _ _ _)).
  f_equal; vm_compute; reflexivity.
Defined.

Lemma rewrite_lines_verbatim unicode_lower parseString (ls : list pystr) w :
  Forall (fun l => rewrite_line unicode_lower parseString l = Ok l) ls ->
  rewrite_lines unicode_lower parseString ls w = (w ++ concat ls, None).
Proof.
  intros H. revert w. induction H as [|l ls Hl _ IH]; intros w; simpl.
  - by rewrite app_nil_r.
  - rewrite Hl, IH. by rewrite <- app_assoc.
Qed.

(** X9: when every line of the table is passed through, the pass rewrites
    the table to the text as it was read: the same characters, except that
    the line ends [\r\n] and [\r] have become [\n] (the table is read with
    universal newlines and written without translation).  A table without
    [\r] is rewritten to itself. *)
Theorem passthrough_pass (unicode_lower : pystr -> pystr)
    (parseString : pystr -> option (list pystr)) (infile text : pystr)
    (fs : gmap pystr pystr) :
  fs !! infile = Some text ->
  Forall (fun l => rewrite_line unicode_lower parseString l = Ok l)
    (file_lines (universal_newlines text)) ->
  append_units_to_periphery_csv unicode_lower parseString infile fs
    = (<[infile := universal_newlines text]>
         (delete (infile ++ str ".tmp") fs), None)
  /\ (13%N ∉ text -> universal_newlines text = text).
Proof.
  intros Hin Hall. split; [|apply universal_newlines_id].
  unfold append_units_to_periphery_csv.
  rewrite lookup_insert_ne by apply RewriterFacts.tmp_ne. rewrite Hin.
  rewrite rewrite_lines_verbatim by done. simpl app.
  rewrite concat_file_lines.
  unfold shutil_move. rewrite lookup_insert_eq.
  by rewrite !delete_insert_eq.
Qed.

(** X9, an instance: a table of two notes with [\r\n] line ends; the parser
    is not consulted for them. *)
Lemma passthrough_pass_witness :
  let text := str "Note: a" ++ [13%N; NL] ++ str "Note: b" ++ [13%N; NL] in
  fst (append_units_to_periphery_csv (fun s => s) (fun _ => None)
         (str "periphery.csv") {[ str "periphery.csv" := text ]})
    !! str "periphery.csv"
  = Some (str "Note: a" ++ [NL] ++ str "Note: b" ++ [NL]).
Proof.
  intros text.
  destruct (passthrough_pass (fun s => s) (fun _ => None)
              (str "periphery.csv") text {[ str "periphery.csv" := text ]})
    as [-> _].
  - apply lookup_singleton_eq.
  - assert (file_lines (universal_newlines text)
            = [str "Note: a" ++ [NL]; str "Note: b" ++ [NL]]) as ->
      by (vm_compute; reflexivity).
    repeat constructor.
  - simpl fst. rewrite lookup_insert_eq. vm_compute. reflexivity.
Defined.

(** X10: a line that starts with a comma is written verbatim whenever the
    parser returns an empty first field for it: the prefix up to the first
    comma, which line 144 puts in its place, is empty as well, and the test
    of line 148 rejects the row.  Rows without an identifier never get a
    unit. *)
Theorem leading_comma_verbatim (unicode_lower : pystr -> pystr)
    (parseString : pystr -> option (list pystr)) (l : pystr)
    (fs : list pystr) :
  startswith (str ",") l = true ->
  parseString (replace ellipsis escaped_ellipsis l) = Some ([] :: fs) ->
  rewrite_line unicode_lower parseString l = Ok l.
Proof.
  intros Hc Hp. apply SubscriptFacts.startswith_app in Hc.
  remember (drop (length (str ",")) l) as rest eqn:Hrest. clear Hrest.
  change (str ",") with [44%N] in Hc. cbn [app] in Hc. subst l.
  unfold rewrite_line, parse_fields. rewrite Hp.
  destruct (_ || _); [done|].
  rewrite bool_decide_eq_true_2 by done.
  change (partition_head 44 (44%N :: rest)) with (@nil N).
  unfold rejected. cbn [map lookup list_lookup default].
  change (replace escaped_ellipsis ellipsis []) with (@nil N).
  change (In_list [] [str ""; [NL]; str "Rule"]) with true.
  by rewrite orb_true_r.
Qed.

Lemma leading_comma_verbatim_witness :
  rewrite_line (fun s => s) Pyparsing.commaSeparatedList
    (str ",Minimum width,x,0.5" ++ [NL])
  = Ok (str ",Minimum width,x,0.5" ++ [NL]).
Proof.
  eapply leading_comma_verbatim; [reflexivity | vm_compute; reflexivity].
Defined.

End TableFacts.

(** * Further properties of the markup rewriter *)
Module MarkupFacts.
Import Py SubscriptToMath SubscriptFiles SubscriptFacts.

(** *** Facts about [find] and [replace] *)

Lemma startswith_prefix (p s : pystr) : startswith p (p ++ s) = true.
Proof. induction p as [|a p IH]; simpl; [done|]. by rewrite N.eqb_refl. Qed.

Lemma startswith_head (c x : N) (p s : pystr) :
  x <> c -> startswith (c :: p) (x :: s) = false.
Proof.
  intros H. simpl. destruct (c =? x)%N eqn:E; [|done].
  apply N.eqb_eq in E. congruence.
Qed.

(** The first occurrence: the first character of [sub] does not occur
    before it. *)
Lemma find_from_first (c : N) (sub pre post : pystr) (i start : nat) :
  c ∉ pre -> start <= i ->
  find_from (c :: sub) (pre ++ (c :: sub) ++ post) i start
  = Some (i + length pre).
Proof.
  revert i. induction pre as [|x pre IH]; intros i Hc Hs.
  - cbn [app length find_from].
    assert ((start <=? i) = true) as -> by by apply Nat.leb_le.
    pose proof (startswith_prefix (c :: sub) post) as Hp.
    cbn [app] in Hp. rewrite Hp. simpl. f_equal. lia.
  - apply not_elem_of_cons in Hc as [Hx Hc].
    cbn [app length find_from]. rewrite startswith_head by done.
    rewrite andb_false_r. rewrite IH by (done || lia). f_equal. lia.
Qed.

(** The positions before [start] are not looked at. *)
Lemma find_from_skip (sub pre s : pystr) (i start : nat) :
  i + length pre <= start ->
  find_from sub (pre ++ s) i start = find_from sub s (i + length pre) start.
Proof.
  revert i. induction pre as [|x pre IH]; intros i H.
  - simpl. by rewrite Nat.add_0_r.
  - cbn [app length find_from] in *.
    assert ((start <=? i) = false) as -> by (apply Nat.leb_gt; lia).
    simpl. rewrite IH by lia. f_equal. lia.
Qed.

Lemma find_none (c : N) (sub s : pystr) (start : nat) :
  c ∈ sub -> c ∉ s -> find sub s start = None.
Proof.
  intros Hc Hs. destruct (find sub s start) as [j|] eqn:H; [|done].
  apply find_spec in H as (_ & pre & post & -> & _).
  exfalso. apply Hs. rewrite !elem_of_app. auto.
Qed.

Lemma replace_from_skip (old new x s : pystr) :
  replace_from old new (x ++ s) (length x) = replace_from old new s 0.
Proof.
  induction x as [|c x IH]; [done|]. cbn [app length replace_from]. done.
Qed.

Lemma replace_from_prefix (c : N) (old new s : pystr) :
  replace_from (c :: old) new ((c :: old) ++ s) 0
  = new ++ replace_from (c :: old) new s 0.
Proof.
  cbn [app replace_from].
  pose proof (startswith_prefix (c :: old) s) as Hp.
  cbn [app] in Hp. rewrite Hp.
  cbn [length]. rewrite Nat.sub_succ, Nat.sub_0_r.
  by rewrite replace_from_skip.
Qed.

Lemma replace_from_first (c : N) (old new a s : pystr) :
  c ∉ a ->
  replace_from (c :: old) new (a ++ s) 0
  = a ++ replace_from (c :: old) new s 0.
Proof.
  induction a as [|x a IH]; intros H; [done|].
  apply not_elem_of_cons in H as [Hx Ha].
  cbn [app replace_from]. rewrite startswith_head by done.
  by rewrite IH.
Qed.

Lemma replace_from_none (c : N) (old new s : pystr) :
  c ∉ s -> replace_from (c :: old) new s 0 = s.
Proof.
  intros H. rewrite <- (app_nil_r s) at 1.
  rewrite replace_from_first by done. by rewrite app_nil_r.
Qed.

(** *** [strip_math] *)

Lemma strip_math_step_inl (s s' : pystr) :
  strip_math_step s = inl s' -> strip_math s = strip_math s'.
Proof.
  intros H.
  assert (strip_math_loop (S (length s)) s = strip_math_loop (length s) s')
    as Heq by (simpl; by rewrite H).
  unfold strip_math. rewrite Heq.
  pose proof (strip_math_step_shorter _ _ H) as Hlen.
  destruct (strip_math_loop_returns (length s) s') as [r Hr]; [lia|].
  destruct (strip_math_loop_returns (S (length s')) s') as [r' Hr']; [lia|].
  rewrite Hr, Hr'. simpl.
  apply (strip_math_loop_more _ (length s)) in Hr'; [|lia]. congruence.
Qed.

Lemma strip_math_step_inr (s r : pystr) :
  strip_math_step s = inr r -> r = s /\ strip_math s = s.
Proof.
  intros H. assert (r = s) as ->.
  { unfold strip_math_step in H.
    destruct (find math_tag s 0); [|congruence].
    destruct (find [BQ] s _); [done | congruence]. }
  split; [done|]. unfold strip_math. cbn [strip_math_loop]. by rewrite H.
Qed.

Lemma strip_math_loop_fixed (fuel : nat) (s r : pystr) :
  strip_math_loop fuel s = Some r ->
  strip_math_step r = inr r /\ length r <= length s.
Proof.
  revert s. induction fuel as [|fuel IH]; intros s; [done|]. simpl.
  destruct (strip_math_step s) as [s'|r'] eqn:Hs.
  - intros H. apply IH in H as [H1 H2]. split; [done|].
    apply strip_math_step_shorter in Hs. lia.
  - intros [= <-]. destruct (strip_math_step_inr _ _ Hs) as [-> _].
    split; [exact Hs | done].
Qed.

(** X11: the result of [strip_math] is a string on which its loop returns
    at once: it holds no [:math:`] tag, or no backtick after the first
    such tag.  So [strip_math] is idempotent, and its result is never
    longer than its argument. *)
Theorem strip_math_result (s : pystr) :
  strip_math_step (strip_math s) = inr (strip_math s)
  /\ strip_math (strip_math s) = strip_math s
  /\ length (strip_math s) <= length s.
Proof.
  destruct (strip_math_loop_returns (S (length s)) s) as [r Hr]; [lia|].
  assert (strip_math s = r) as -> by (unfold strip_math; by rewrite Hr).
  apply strip_math_loop_fixed in Hr as [Hfix Hlen].
  split; [done|]. split; [|done].
  by apply strip_math_step_inr in Hfix as [_ ?].
Qed.

Lemma strip_math_next_tag (a b c : pystr) :
  58%N ∉ a -> BQ ∉ b ->
  strip_math (a ++ math_tag ++ b ++ [BQ] ++ c) = strip_math (a ++ b ++ c).
Proof.
  intros Ha Hb. apply strip_math_step_inl. unfold strip_math_step.
  assert (find math_tag (a ++ math_tag ++ b ++ [BQ] ++ c) 0 = Some (length a))
    as ->.
  { unfold find. change math_tag with (58%N :: str "math:`").
    by rewrite find_from_first. }
  change (length math_tag) with 7.
  assert (find [BQ] (a ++ math_tag ++ b ++ [BQ] ++ c) (length a + 7)
          = Some (length a + 7 + length b)) as ->.
  { unfold find. rewrite (app_assoc a math_tag).
    rewrite find_from_skip
      by (rewrite length_app; change (length math_tag) with 7; lia).
    rewrite length_app. change (length math_tag) with 7. simpl Nat.add.
    by rewrite find_from_first. }
  f_equal. f_equal; [by rewrite take_app_length|]. f_equal.
  - unfold slice. rewrite (app_assoc a math_tag).
    rewrite drop_app_length'
      by (rewrite length_app; change (length math_tag) with 7; lia).
    replace (length a + 7 + length b - (length a + 7)) with (length b) by lia.
    by rewrite take_app_length.
  - rewrite (app_assoc a), (app_assoc (a ++ math_tag)), app_assoc.
    rewrite drop_app_length'; [done|].
    rewrite !length_app. change (length math_tag) with 7. simpl. lia.
Qed.

(** X12: [strip_math] removes the first tag and the backtick that closes
    it, and goes on with the rest: when no colon precedes the tag and the
    expression [b] holds no backtick, stripping [a :math:`b` c] is
    stripping [a b c]. *)
Theorem strip_math_first_tag (a b c : pystr) :
  58%N ∉ a -> BQ ∉ b ->
  strip_math (a ++ math_tag ++ b ++ [BQ] ++ c) = strip_math (a ++ b ++ c).
Proof. exact (strip_math_next_tag a b c). Qed.

(** X12, an instance: [A/:math:`B`] is stripped to [A/B]. *)
Lemma strip_math_first_tag_witness :
  strip_math (str "A/" ++ math_tag ++ str "B" ++ [BQ] ++ []) = str "A/B".
Proof.
  rewrite strip_math_first_tag.
  - vm_compute. reflexivity.
  - apply (bool_decide_unpack _). vm_compute. exact I.
  - apply (bool_decide_unpack _). vm_compute. exact I.
Defined.

(** X13: a string without a backtick is returned unchanged, and a single
    math expression is unwrapped: [strip_math] of [:math:`b`] is [b] when
    [b] holds no backtick. *)
Theorem strip_math_unwrap (b : pystr) :
  BQ ∉ b ->
  strip_math b = b /\ strip_math (math_tag ++ b ++ [BQ]) = b.
Proof.
  intros Hb.
  assert (strip_math b = b) as Hid.
  { eapply strip_math_step_inr. unfold strip_math_step.
    rewrite (find_none BQ); [done | | done].
    apply (bool_decide_unpack _). vm_compute. exact I. }
  split; [done|].
  pose proof (strip_math_next_tag [] b [] (not_elem_of_nil _) Hb) as H.
  cbn [app] in H. rewrite app_nil_r in H. by rewrite Hid in H.
Qed.

Lemma strip_math_unwrap_witness :
  strip_math (math_tag ++ str "\frac{A}{B}" ++ [BQ]) = str "\frac{A}{B}".
Proof.
  apply strip_math_unwrap.
  apply (bool_decide_unpack _). vm_compute. exact I.
Defined.

(** *** [patch_sub] *)

Lemma word_char_plain (u : N -> bool) (c : N) :
  word_char u c = true -> c <> BQ /\ c <> 92%N /\ c <> 58%N.
Proof.
  intros H. repeat split; intros ->; vm_compute in H; discriminate.
Qed.

Lemma remove_backticks (x body : pystr) :
  BQ ∉ x -> BQ ∉ body ->
  replace [BQ] [] (x ++ [BQ] ++ body ++ [BQ]) = x ++ body.
Proof.
  intros Hx Hb. unfold replace.
  rewrite replace_from_first by done.
  rewrite replace_from_prefix. cbn [app].
  rewrite replace_from_first by done.
  replace (replace_from [BQ] [] [BQ] 0) with (@nil N) by reflexivity.
  by rewrite !app_nil_r.
Qed.

Lemma remove_escape (escaped : bool) (head rest : pystr) :
  92%N ∉ head -> 92%N ∉ rest ->
  replace (str "\ ") [] (head ++ (if escaped then str "\ " else []) ++ rest)
  = head ++ rest.
Proof.
  intros Hh Hr. change (str "\ ") with [92%N; 32%N]. unfold replace.
  rewrite replace_from_first by done. f_equal.
  destruct escaped.
  - rewrite replace_from_prefix. cbn [app]. by apply replace_from_none.
  - cbn [app]. by apply replace_from_none.
Qed.

(** X14: on a subscript expression, [patch_sub] gives the math expression
    with the subscript after an underscore, in braces when it has more than
    one character: for a head of word characters, with or without the
    escaped space after it, and a subscript without backtick or backslash,
    [head\ :sub:`body`] becomes [:math:`head_body`] or
    [:math:`head_{body}`]. *)
Theorem patch_sub_math (unicode_isalnum : N -> bool) (escaped : bool)
    (head body : pystr) :
  Forall (fun c => word_char unicode_isalnum c = true) head ->
  BQ ∉ body -> 92%N ∉ body ->
  patch_sub (head ++ (if escaped then str "\ " else []) ++ str ":sub:`"
             ++ body ++ [BQ])
  = str ":math:`" ++ head ++ str "_"
    ++ (if 1 <? length body then str "{" ++ body ++ str "}" else body)
    ++ [BQ].
Proof.
  intros Hw Hb Hs.
  assert (forall c, c ∈ head -> c <> BQ /\ c <> 92%N /\ c <> 58%N) as Hplain.
  { intros c Hc. apply (word_char_plain unicode_isalnum).
    by apply (proj1 (Forall_forall _ _) Hw). }
  assert (BQ ∉ head) as Hh1 by (intros Hc; by apply Hplain in Hc as (? & _)).
  assert (92%N ∉ head) as Hh2
    by (intros Hc; by apply Hplain in Hc as (_ & ? & _)).
  assert (58%N ∉ head) as Hh3
    by (intros Hc; by apply Hplain in Hc as (_ & _ & ?)).
  set (sep := if escaped then str "\ " else []).
  assert (BQ ∉ sep) as Hsep.
  { subst sep. destruct escaped; apply (bool_decide_unpack _);
      vm_compute; exact I. }
  assert ((BQ ∉ str ":sub:") /\ (92%N ∉ str ":sub:")) as [Hsub1 Hsub2]
    by (split; apply (bool_decide_unpack _); vm_compute; exact I).
  unfold patch_sub.
  change (str ":sub:`") with (str ":sub:" ++ [BQ]).
  replace (head ++ sep ++ (str ":sub:" ++ [BQ]) ++ body ++ [BQ])
    with ((head ++ sep ++ str ":sub:") ++ [BQ] ++ body ++ [BQ])
    by (by rewrite <- !app_assoc).
  rewrite remove_backticks; [|by rewrite !not_elem_of_app | done].
  rewrite <- !app_assoc. subst sep.
  rewrite remove_escape; [|done | by rewrite not_elem_of_app].
  assert (find (str ":sub:") (head ++ str ":sub:" ++ body) 0
          = Some (length head)) as ->.
  { unfold find. change (str ":sub:") with (58%N :: str "sub:").
    by rewrite find_from_first. }
  rewrite take_app_length.
  rewrite (app_assoc head (str ":sub:") body).
  rewrite drop_app_length'; [done|].
  rewrite length_app. change (length (str ":sub:")) with 5. lia.
Qed.

Lemma patch_sub_math_witness :
  patch_sub (str "Vdd" ++ str "\ " ++ str ":sub:`" ++ str "max" ++ [BQ])
  = str ":math:`Vdd_{max}`".
Proof.
  rewrite (patch_sub_math (fun _ => false) true).
  - vm_compute. reflexivity.
  - apply Forall_forall. intros c Hc. revert c Hc. apply Forall_forall.
    repeat constructor.
  - apply (bool_decide_unpack _). vm_compute. exact I.
  - apply (bool_decide_unpack _). vm_compute. exact I.
Defined.

(** *** The matcher *)

Section MatcherFacts.
Context {A : Type}.

Lemma star_suffix p s (k : pystr -> option A) x :
  star p s k = Some x -> exists s', s' `suffix_of` s /\ k s' = Some x.
Proof.
  induction s as [|c s IH]; simpl; [by exists []|].
  destruct (p c); [|by exists (c :: s)].
  destruct (star p s k) as [y|] eqn:E.
  - intros [= ->]. destruct (IH eq_refl) as (s' & Hs & Hk).
    exists s'. split; [by apply suffix_cons_r | done].
  - by exists (c :: s).
Qed.

Lemma lazy_plus_suffix p s (k : pystr -> option A) x :
  lazy_plus p s k = Some x -> exists s', s' `suffix_of` s /\ k s' = Some x.
Proof.
  induction s as [|c s IH]; simpl; [done|].
  destruct (p c); [|done].
  destruct (k s) as [y|] eqn:E.
  - intros [= ->]. exists s. split; [by apply suffix_cons_r | done].
  - intros H. destruct (IH H) as (s' & Hs & Hk).
    exists s'. split; [by apply suffix_cons_r | done].
Qed.

(** The continuation is run on what follows the match. *)
Lemma rmatch_suffix r s (k : pystr -> option A) x :
  rmatch r s k = Some x -> exists s', s' `suffix_of` s /\ k s' = Some x.
Proof.
  revert s k. induction r as [l|p|r1 IH1 r2 IH2|r1 IH1|p|p|p]; intros s k;
    simpl.
  - destruct (startswith l s); [|done]. intros H.
    exists (drop (length l) s). split; [apply suffix_drop | done].
  - destruct s as [|c s]; [done|]. destruct (p c); [|done]. intros H.
    exists s. split; [by apply suffix_cons_r | done].
  - intros H. apply IH1 in H as (s1 & Hs1 & H).
    apply IH2 in H as (s2 & Hs2 & H). exists s2. split; [by etrans | done].
  - destruct (rmatch r1 s k) as [y|] eqn:E.
    + intros [= ->]. by apply IH1.
    + by exists s.
  - apply star_suffix.
  - destruct s as [|c s]; [done|]. destruct (p c); [|done]. intros H.
    apply star_suffix in H as (s' & Hs & H).
    exists s'. split; [by apply suffix_cons_r | done].
  - apply lazy_plus_suffix.
Qed.

(** A match needs the characters of the literals that are not optional. *)
Lemma rmatch_requires c r s (k : pystr -> option A) x :
  requires c r = true -> rmatch r s k = Some x -> c ∈ s.
Proof.
  revert s k. induction r as [l|p|r1 IH1 r2 IH2|r1 IH1|p|p|p]; intros s k;
    simpl; try done.
  - intros Hc. apply bool_decide_eq_true in Hc.
    destruct (startswith l s) eqn:E; [|done]. intros _.
    apply startswith_app in E. rewrite E. apply elem_of_app. by left.
  - intros Hc H. apply orb_prop in Hc as [Hc|Hc].
    + by eapply IH1.
    + apply rmatch_suffix in H as (s1 & [pre ->] & H).
      apply elem_of_app. right. by eapply IH2.
Qed.

End MatcherFacts.

Lemma re_match_prefix r s g :
  re_match r s = Some g -> exists rest, s = g ++ rest.
Proof.
  unfold re_match. destruct (rmatch r s Some) as [rest|] eqn:E; [|done].
  intros [= <-]. apply rmatch_suffix in E as (s' & [pre ->] & [= ->]).
  exists rest. rewrite length_app.
  replace (length pre + length rest - length rest) with (length pre) by lia.
  by rewrite take_app_length.
Qed.

(** What [re.search] returns occurs in the string. *)
Lemma re_search_occurs r s g :
  re_search r s = Some g -> exists pre post, s = pre ++ g ++ post.
Proof.
  induction s as [|c s IH]; simpl.
  - destruct (re_match r []) as [g'|] eqn:E; [|done]. intros [= ->].
    apply re_match_prefix in E as [rest ->]. by exists [], rest.
  - destruct (re_match r (c :: s)) as [g'|] eqn:E.
    + intros [= ->]. apply re_match_prefix in E as [rest ->].
      by exists [], rest.
    + intros H. apply IH in H as (pre & post & ->). by exists (c :: pre), post.
Qed.

Lemma re_match_requires c r s :
  requires c r = true -> c ∉ s -> re_match r s = None.
Proof.
  intros Hc Hs. unfold re_match.
  destruct (rmatch r s Some) as [rest|] eqn:E; [|done].
  exfalso. apply Hs. by eapply rmatch_requires.
Qed.

Lemma re_search_requires c r s :
  requires c r = true -> c ∉ s -> re_search r s = None.
Proof.
  intros Hc. induction s as [|x s IH]; intros Hs; simpl.
  - by rewrite (re_match_requires c).
  - rewrite (re_match_requires c) by done.
    apply IH. by apply not_elem_of_cons in Hs as [_ ?].
Qed.

Lemma re_sub_requires c r repl s :
  requires c r = true -> c ∉ s -> re_sub r repl s = s.
Proof.
  intros Hc. unfold re_sub. induction s as [|x s IH]; intros Hs; simpl; [done|].
  rewrite (re_match_requires c) by done.
  f_equal. apply IH. by apply not_elem_of_cons in Hs as [_ ?].
Qed.

Lemma patterns_require (u : N -> bool) (c : N) :
  c = 58%N \/ c = BQ ->
  requires c (sub u) = true /\ forall t, requires c (pattern t) = true.
Proof.
  intros [->| ->]; (split; [reflexivity | intros []; reflexivity]).
Qed.

Lemma patch_line_no_match (unicode_isalnum : N -> bool) (line : pystr) :
  58%N ∉ line \/ BQ ∉ line ->
  patch_line unicode_isalnum line = inl line.
Proof.
  intros H.
  assert (exists c, (c = 58%N \/ c = BQ) /\ c ∉ line) as (c & Hc & Hline)
    by (destruct H; eauto).
  destruct (patterns_require unicode_isalnum c Hc) as [Hsub Hpat].
  unfold patch_line. rewrite (re_sub_requires c) by done.
  assert (forall t, apply_template t line = inl line) as Ht.
  { intros t. unfold apply_template.
    by rewrite (re_search_requires c) by done. }
  cbn [fold_left]. by rewrite !Ht.
Qed.

(** X15: a line without a colon, or without a backtick, is written as it
    is and raises nothing: every pattern of the script needs a literal
    [:sub:`] or [:math:`]. *)
Theorem patch_line_plain (unicode_isalnum : N -> bool) (line : pystr) :
  58%N ∉ line \/ BQ ∉ line ->
  patch_line unicode_isalnum line = inl line.
Proof. exact (patch_line_no_match unicode_isalnum line). Qed.

Lemma patch_line_plain_witness :
  patch_line (fun _ => false) (str "Rule x.1: width of metal >= 0.5" ++ [NL])
  = inl (str "Rule x.1: width of metal >= 0.5" ++ [NL]).
Proof.
  apply patch_line_plain. right.
  apply (bool_decide_unpack _). vm_compute. exact I.
Defined.

(** A string that occurs is found, at or before the occurrence. *)
Lemma find_from_occurs (g pre post : pystr) (i : nat) :
  exists j, find_from g (pre ++ g ++ post) i 0 = Some j.
Proof.
  revert i. induction pre as [|x pre IH]; intros i.
  - pose proof (startswith_prefix g post) as Hp. cbn [app].
    destruct (g ++ post) as [|c s]; simpl; rewrite Hp; eauto.
  - cbn [app find_from]. destruct (_ && _); eauto.
Qed.

(** X16: a template raises [IndexError] only when the text it matched ends
    the line: the character after the match, [line[i]], is then missing.
    A line with characters after every match is rewritten without an
    error. *)
Theorem apply_template_IndexError (t : template) (line : pystr) (e : exn) :
  apply_template t line = inr e ->
  exists group0 pre,
    re_search (pattern t) line = Some group0 /\ line = pre ++ group0.
Proof.
  unfold apply_template.
  destruct (re_search (pattern t) line) as [g|] eqn:Hs; [|done].
  intros H. exists g.
  destruct (re_search_occurs _ _ _ Hs) as (pre0 & post0 & Hocc).
  destruct (find_from_occurs g pre0 post0 0) as [j Hj].
  rewrite <- Hocc in Hj. fold (find g line 0) in Hj.
  rewrite Hj in H. cbn [default from_option id] in H.
  apply find_spec in Hj as (_ & pre & post & Hline & Hlen).
  exists pre. split; [done|].
  destruct (line !! (j + length g)) as [c|] eqn:Hc.
  - exfalso. repeat case_match; congruence.
  - apply lookup_ge_None in Hc. rewrite Hline in Hc.
    rewrite !length_app in Hc.
    assert (length post = 0) as Hpost by lia.
    destruct post; [|done]. by rewrite app_nil_r in Hline.
Qed.

(** X16, an instance: in [:math:`a` =] the comparison pattern takes the
    newline as the blank after the sign, and the line raises. *)
Lemma apply_template_IndexError_witness :
  exists group0 pre,
    re_search (pattern eq_sub) (str ":math:`a` =" ++ [NL]) = Some group0
    /\ str ":math:`a` =" ++ [NL] = pre ++ group0.
Proof.
  apply (apply_template_IndexError eq_sub _ IndexError).
  vm_compute. reflexivity.
Defined.

End MarkupFacts.

(** * Properties of the pass over a markup file *)
Module MarkupFileFacts.
Import Py SubscriptToMath SubscriptFiles.

Lemma out_ne (infile : pystr) : infile ++ str ".out" <> infile.
Proof.
  intros H. apply (f_equal length) in H. rewrite length_app in H.
  simpl in H. lia.
Qed.

Section Files.
Variable unicode_isalnum : N -> bool.
Variable linesep : pystr.

Abbreviation patch_line := (patch_line unicode_isalnum).
Abbreviation write_text := (write_text linesep).
Abbreviation patch_lines := (patch_lines unicode_isalnum linesep).
Abbreviation patch_subscript := (patch_subscript unicode_isalnum linesep).
Abbreviation main_loop := (main_loop unicode_isalnum linesep).

(** The loop stops at the first line that raises; what is written is the
    output of the lines before it. *)
Lemma patch_lines_spec (ls : list pystr) (w out : pystr)
    (r : option Periphery.exn) :
  patch_lines ls w = (out, r) ->
  exists done outs,
    Forall2 (fun l o => patch_line l = inl o) done outs
    /\ out = w ++ concat (map write_text outs)
    /\ match r with
       | None => done = ls
       | Some e => e = Periphery.IndexError
                   /\ exists l rest, ls = done ++ l :: rest
                                     /\ patch_line l = inr IndexError
       end.
Proof.
  revert w. induction ls as [|l ls IH]; intros w; simpl.
  - intros [= <- <-]. exists [], []. by rewrite app_nil_r.
  - destruct (SubscriptToMath.patch_line _ l) as [o|[]] eqn:Hl.
    + intros H. apply IH in H as (done & outs & HF & -> & Hr).
      exists (l :: done), (o :: outs). split; [by constructor|].
      split; [simpl; by rewrite <- app_assoc|].
      destruct r as [e|]; [|by subst].
      destruct Hr as (-> & l' & rest & -> & Hl').
      split; [done|]. by exists l', rest.
    + intros [= <- <-]. exists [], []. split; [constructor|].
      split; [by rewrite app_nil_r|]. split; [done|]. by exists l, ls.
Qed.

Lemma patch_subscript_spec (infile : pystr) (fs fs' : gmap pystr pystr)
    (r : option Periphery.exn) :
  patch_subscript infile fs = (fs', r) ->
  match r with
  | None =>
      exists text outs,
        fs !! infile = Some text
        /\ Forall2 (fun l o => patch_line l = inl o)
             (Periphery.file_lines (Periphery.universal_newlines text)) outs
        /\ fs' = <[infile := concat (map write_text outs)]>
                   (delete (infile ++ str ".out") fs)
  | Some e =>
      fs' !! infile = fs !! infile
      /\ forall p, p <> infile ++ str ".out" -> fs' !! p = fs !! p
  end.
Proof.
  unfold SubscriptFiles.patch_subscript.
  rewrite lookup_insert_ne by apply out_ne.
  destruct (fs !! infile) as [text|] eqn:Hin.
  - destruct (SubscriptFiles.patch_lines _ _ _ _) as [written [e|]] eqn:Hl.
    + intros [= <- <-]. rewrite insert_insert_eq.
      split; [by rewrite lookup_insert_ne by apply out_ne|].
      intros p Hp. by rewrite lookup_insert_ne.
    + intros [= <- <-].
      apply patch_lines_spec in Hl as (done & outs & HF & -> & ->).
      exists text, outs. split; [done|]. split; [done|].
      unfold Periphery.shutil_move. rewrite lookup_insert_eq.
      by rewrite !delete_insert_eq.
  - intros [= <- <-].
    split; [by rewrite lookup_insert_ne by apply out_ne|].
    intros p Hp. by rewrite lookup_insert_ne.
Qed.

(** X17: the outcome of [patch_subscript].  When it completes, every line
    has been rewritten without an error, the file holds the lines written,
    and the path [infile + '.out'] is gone, whatever it held before.  When
    it raises, the file is what it was, and so is every path other than
    [infile + '.out']. *)
Theorem patch_subscript_outcome (infile : pystr) (fs fs' : gmap pystr pystr)
    (r : option Periphery.exn) :
  patch_subscript infile fs = (fs', r) ->
  match r with
  | None =>
      exists text outs,
        fs !! infile = Some text
        /\ Forall2 (fun l o => patch_line l = inl o)
             (Periphery.file_lines (Periphery.universal_newlines text)) outs
        /\ fs' = <[infile := concat (map write_text outs)]>
                   (delete (infile ++ str ".out") fs)
  | Some e =>
      fs' !! infile = fs !! infile
      /\ forall p, p <> infile ++ str ".out" -> fs' !! p = fs !! p
  end.
Proof. exact (patch_subscript_spec infile fs fs' r). Qed.

(** [patch_subscript] touches the file and its [.out] file only. *)
Lemma patch_subscript_frame (infile p : pystr) (fs : gmap pystr pystr) :
  p <> infile -> p <> infile ++ str ".out" ->
  (patch_subscript infile fs).1 !! p = fs !! p.
Proof.
  intros H1 H2.
  destruct (patch_subscript infile fs) as [fs' r] eqn:H.
  apply patch_subscript_spec in H. simpl.
  destruct r as [e|].
  - destruct H as (_ & H). by apply H.
  - destruct H as (text & outs & _ & _ & ->).
    rewrite lookup_insert_ne by done. by rewrite lookup_delete_ne.
Qed.

(** X18: the loop of [main] takes the files in order and stops at the first
    one that raises.  It prints one line for every file it takes, the
    failing one included, and nothing for the files after it; and no path
    changes other than the files taken and their [.out] files. *)
Theorem main_loop_outcome (files : list pystr) (fs fs' : gmap pystr pystr)
    (printed printed' : list pystr) (r : option Periphery.exn) :
  main_loop files (fs, printed) = ((fs', printed'), r) ->
  exists taken,
    taken `prefix_of` files
    /\ printed' = printed ++ map message taken
    /\ match r with
       | None => taken = files
       | Some e => exists ok f fs0,
           taken = ok ++ [f]
           /\ main_loop ok (fs, printed)
              = ((fs0, printed ++ map message ok), None)
           /\ patch_subscript f fs0 = (fs', Some e)
       end
    /\ forall p, (forall f, f ∈ taken -> p <> f /\ p <> f ++ str ".out") ->
                 fs' !! p = fs !! p.
Proof.
  revert fs printed. induction files as [|f files IH]; intros fs printed.
  - intros [= <- <- <-]. exists []. split; [done|].
    split; [by rewrite app_nil_r|]. done.
  - cbn [SubscriptFiles.main_loop fst snd].
    destruct (SubscriptFiles.patch_subscript _ _ f fs) as [fs1 [e|]] eqn:Hf.
    + intros [= <- <- <-]. exists [f].
      split; [by apply prefix_cons, prefix_nil|]. split; [done|]. split.
      * exists [], f, fs. split; [done|]. split; [|done].
        simpl. by rewrite app_nil_r.
      * intros p Hp. destruct (Hp f) as [H1 H2]; [apply list_elem_of_here|].
        pose proof (patch_subscript_frame f p fs H1 H2) as Hfr.
        by rewrite Hf in Hfr.
    + intros H. apply IH in H as (taken & Hpre & -> & Hr & Hframe).
      exists (f :: taken). split; [by apply prefix_cons|].
      split; [simpl; by rewrite <- app_assoc|]. split.
      * destruct r as [e|]; [|by subst].
        destruct Hr as (ok & f' & fs0 & -> & Hok & Hfail).
        exists (f :: ok), f', fs0. split; [done|]. split; [|done].
        cbn [SubscriptFiles.main_loop fst snd]. rewrite Hf.
        rewrite Hok. simpl. by rewrite <- app_assoc.
      * intros p Hp. rewrite Hframe.
        -- destruct (Hp f) as [H1 H2]; [apply list_elem_of_here|].
           pose proof (patch_subscript_frame f p fs H1 H2) as Hfr.
           by rewrite Hf in Hfr.
        -- intros f' Hf'. apply Hp. by apply list_elem_of_further.
Qed.

Lemma write_text_app (a b : pystr) :
  write_text (a ++ b) = write_text a ++ write_text b.
Proof.
  unfold SubscriptFiles.write_text, replace.
  induction a as [|c a IH]; [done|].
  cbn [app replace_from startswith length]. change (1 - 1) with 0.
  rewrite IH, andb_true_r.
  destruct (NL =? c)%N; simpl; [by rewrite <- app_assoc | done].
Qed.

Lemma write_text_id (s : pystr) : linesep = [NL] -> write_text s = s.
Proof.
  intros ->. unfold SubscriptFiles.write_text, replace.
  induction s as [|x s IH]; [done|].
  cbn [replace_from startswith length]. change (1 - 1) with 0.
  rewrite andb_true_r, IH.
  destruct (NL =? x)%N eqn:E; [|done].
  apply N.eqb_eq in E. by subst x.
Qed.

Lemma write_text_concat (ls : list pystr) :
  concat (map write_text ls) = write_text (concat ls).
Proof.
  induction ls as [|l ls IH]; simpl; [done|].
  by rewrite write_text_app, IH.
Qed.

Lemma universal_newlines_elem (c : N) (s : pystr) :
  c <> NL -> c ∉ s -> c ∉ Periphery.universal_newlines s.
Proof.
  intros Hc. revert s.
  assert (forall n s, length s <= n -> c ∉ s ->
            c ∉ Periphery.universal_newlines s) as H.
  { induction n as [|n IH]; intros [|x s] Hlen Hs; simpl in *;
      try apply not_elem_of_nil; [lia|].
    apply not_elem_of_cons in Hs as [Hx Hs].
    destruct (x =? 13)%N.
    - apply not_elem_of_cons. split; [done|].
      destruct s as [|y s]; [apply not_elem_of_nil|].
      apply not_elem_of_cons in Hs as [Hy Hs]. simpl in Hlen.
      destruct (y =? NL)%N; apply IH; simpl; try lia; try done.
      by apply not_elem_of_cons.
    - apply not_elem_of_cons. split; [done|]. apply IH; [lia | done]. }
  intros s. by apply (H (length s)).
Qed.

Lemma elem_of_concat (x : N) (l : pystr) (ls : list pystr) :
  x ∈ l -> l ∈ ls -> x ∈ concat ls.
Proof.
  intros Hx Hl. induction ls as [|l' ls IH]; [by apply not_elem_of_nil in Hl|].
  simpl. apply elem_of_app. apply elem_of_cons in Hl as [<-|Hl]; auto.
Qed.

Lemma patch_lines_plain (c : N) (ls : list pystr) (w : pystr) :
  c = 58%N \/ c = BQ -> Forall (fun l => c ∉ l) ls ->
  patch_lines ls w = (w ++ concat (map write_text ls), None).
Proof.
  intros Hc H. revert w. induction H as [|l ls Hl _ IH]; intros w; simpl.
  - by rewrite app_nil_r.
  - rewrite MarkupFacts.patch_line_no_match by (destruct Hc; subst; auto).
    rewrite IH. by rewrite <- app_assoc.
Qed.

(** X19: a markup file without a colon, or without a backtick, is rewritten
    with the same characters, only the line ends changed: [\r\n] and [\r]
    become [\n] on reading, and [\n] becomes [os.linesep] on writing.  With
    [\n] as [os.linesep] and no [\r] in the file, the file is rewritten to
    itself. *)
Theorem plain_file_pass (infile text : pystr) (fs : gmap pystr pystr) :
  fs !! infile = Some text ->
  58%N ∉ text \/ BQ ∉ text ->
  patch_subscript infile fs
    = (<[infile := write_text (Periphery.universal_newlines text)]>
         (delete (infile ++ str ".out") fs), None)
  /\ (linesep = [NL] -> 13%N ∉ text ->
      write_text (Periphery.universal_newlines text) = text).
Proof.
  intros Hin Hc. split.
  - assert (exists c, (c = 58%N \/ c = BQ) /\ c ∉ text) as (c & Hcc & Ht)
      by (destruct Hc; eauto).
    unfold SubscriptFiles.patch_subscript.
    rewrite lookup_insert_ne by apply out_ne. rewrite Hin.
    rewrite (patch_lines_plain c); [|done|].
    + cbn [app]. rewrite write_text_concat, TableFacts.concat_file_lines.
      unfold Periphery.shutil_move. rewrite lookup_insert_eq.
      by rewrite !delete_insert_eq.
    + apply Forall_forall. intros l Hl Hcl.
      apply (universal_newlines_elem c text); [by destruct Hcc; subst | done|].
      rewrite <- (TableFacts.concat_file_lines
                    (Periphery.universal_newlines text)).
      by apply (elem_of_concat c l).
  - intros Hsep Hr. rewrite TableFacts.universal_newlines_id by done.
    by apply write_text_id.
Qed.

End Files.

(** X17, an instance: the file [a.rst] is patched. *)
Lemma patch_subscript_outcome_witness :
  exists text outs,
    docs !! str "a.rst" = Some text
    /\ Forall2 (fun l o => patch_line (fun _ => false) l = inl o)
         (Periphery.file_lines (Periphery.universal_newlines text)) outs
    /\ (SubscriptFiles.patch_subscript (fun _ => false) [NL] (str "a.rst")
          docs).1
       = <[str "a.rst" := concat (map (SubscriptFiles.write_text [NL]) outs)]>
           (delete (str "a.rst" ++ str ".out") docs).
Proof.
  apply (patch_subscript_outcome (fun _ => false) [NL] (str "a.rst") docs
           _ None).
  rewrite (surjective_pairing (SubscriptFiles.patch_subscript _ _ _ _)).
  f_equal; vm_compute; reflexivity.
Defined.

(** X18, an instance: of three files the second is missing; two lines are
    printed, the first file is patched and the third is untouched. *)
Lemma main_loop_outcome_witness :
  let run := SubscriptFiles.main_loop (fun _ => false) [NL]
               [str "a.rst"; str "missing.rst"; str "c.rst"] (docs, []) in
  run.1.2 = [message (str "a.rst"); message (str "missing.rst")]
  /\ run.1.1 !! str "c.rst" = docs !! str "c.rst".
Proof.
  intros run.
  destruct (main_loop_outcome (fun _ => false) [NL]
              [str "a.rst"; str "missing.rst"; str "c.rst"]
              docs run.1.1 [] run.1.2 (Some Periphery.FileNotFoundError))
    as (taken & _ & Hprinted & (ok & f & fs0 & Htaken & _ & _) & Hframe).
  - assert (run.2 = Some Periphery.FileNotFoundError) as <-
      by (vm_compute; reflexivity).
    by destruct run as [[??]?] eqn:E.
  - split; [vm_compute; reflexivity|].
    apply Hframe. intros f' Hf'.
    assert (taken = [str "a.rst"; str "missing.rst"]) as ->.
    { assert (map message taken
              = map message [str "a.rst"; str "missing.rst"]) as Hm
        by (rewrite <- (app_nil_l (map message taken)), <- Hprinted;
            vm_compute; reflexivity).
      revert Hm. clear. revert taken.
      assert (forall a b : list pystr,
                map message a = map message b -> a = b) as Hinj.
      { induction a as [|x a IH]; intros [|y b]; simpl; try done.
        intros [= Hxy Hab]. f_equal; [done | by apply IH]. }
      intros taken. apply Hinj. }
    revert f' Hf'. apply Forall_forall.
    repeat constructor; vm_compute; discriminate.
Defined.

(** X19, an instance: the file [b.rst] holds no colon. *)
Lemma plain_file_pass_witness :
  (SubscriptFiles.patch_subscript (fun _ => false) [NL] (str "b.rst") docs).1
    !! str "b.rst" = Some (str "x").
Proof.
  destruct (plain_file_pass (fun _ => false) [NL] (str "b.rst") (str "x") docs)
    as [-> Hid].
  - vm_compute. reflexivity.
  - left. apply (bool_decide_unpack _). vm_compute. exact I.
  - cbn [fst]. rewrite lookup_insert_eq.
    rewrite Hid; [reflexivity | done |].
    apply (bool_decide_unpack _). vm_compute. exact I.
Defined.

End MarkupFileFacts.
